(** * SkySim: the image population engine (skysim/populate.py, skysim/settings.py)

    A shallow embedding of the compositing core of SkySim.  Floating-point
    values of the numpy code are modelled as real numbers; numpy arrays are
    nested lists (outer axis first); the external collaborators (astropy's
    sky-to-pixel projection and angular separation, matplotlib's colour map)
    are section variables. *)

From Stdlib Require Import Reals Lra Lia ZArith Sorted.
From stdpp Require Import base list gmap strings.
From Stdlib Require Import Ascii.

Open Scope R_scope.

#[global] Instance R_inhabited : Inhabited R := populate 0.

(** ** numpy helpers *)

(** [np.rint]: round half to even. *)
Definition np_rint (x : R) : Z :=
  let f := Int_part x in
  let d := x - IZR f in
  if Rlt_dec d (1/2) then f
  else if Rlt_dec (1/2) d then (f + 1)%Z
  else if Z.even f then f else (f + 1)%Z.

(** [np.round(x, decimals)] / [Column.round(decimals)]: scale, [rint], unscale. *)
Definition np_round (decimals : nat) (x : R) : R :=
  IZR (np_rint (x * 10 ^ decimals)) / 10 ^ decimals.

(** [np.min] / [np.max] of a one-dimensional array; an empty array raises. *)
Definition np_min (l : list R) : option R :=
  match l with [] => None | x :: xs => Some (fold_left Rmin xs x) end.

Definition np_max (l : list R) : option R :=
  match l with [] => None | x :: xs => Some (fold_left Rmax xs x) end.

(** [np.log10] *)
Definition log10 (x : R) : R := ln x / ln 10.

(** ** populate.py: brightness *)

Definition MINIMUM_BRIGHTNESS : R := 0.2.

(** [magnitude_to_flux]: [10 ** (-magnitude / 2.5)] *)
Definition magnitude_to_flux (magnitude : R) : R := Rpower 10 (- magnitude / 2.5).

(** [linear_rescale(data, new_min, new_max)] *)
Definition linear_rescale (data : list R) (new_min new_max : R) : option (list R) :=
  data_min ← np_min data;
  data_max ← np_max data;
  let data_range := data_max - data_min in
  let data_range := if Req_EM_T data_range 0 then 1 else data_range in
  let new_range := new_max - new_min in
  Some (map (fun d => (d - data_min) * (new_range / data_range) + new_min) data).

(** [get_scaled_brightness], on the "magnitude" column of the table: the
    "brightness" column it adds, rounded to 5 decimals by [round_columns]. *)
Definition get_scaled_brightness (magnitude : list R) : option (list R) :=
  let flux := map magnitude_to_flux magnitude in
  let brightness := map log10 flux in
  brightness ← linear_rescale brightness MINIMUM_BRIGHTNESS 1;
  Some (map (np_round 5) brightness).

(** ** Time of day *)

(** A naive [datetime.datetime], reduced to its time-of-day fields. *)
Record datetime := mk_datetime {
  hour : nat; minute : nat; second : nat; microsecond : nat }.

(** [get_seconds_from_midnight]: [timedelta(hours=.., minutes=..,
    microseconds=..).total_seconds()]; note that the source passes no
    [seconds=] argument. *)
Definition get_seconds_from_midnight (local_time : datetime) : R :=
  INR (hour local_time) * 3600 + INR (minute local_time) * 60
  + INR (microsecond local_time) / 1000000.

(** Python's [int(x)] on a float: truncation towards zero. *)
Definition py_int (x : R) : Z :=
  if Rle_dec 0 x then Int_part x else (- Int_part (- x))%Z.

(** numpy indexing of a one-dimensional array by an integer: negative
    indices count from the end, anything else out of range raises. *)
Definition np_index {A} (l : list A) (i : Z) : option A :=
  if Z.leb 0 i then l !! Z.to_nat i
  else if Z.leb 0 (Z.of_nat (length l) + i) then l !! Z.to_nat (Z.of_nat (length l) + i)
  else None.

(** [get_timed_magnitude] *)
Definition get_timed_magnitude (magnitude_mapping : list R) (local_datetime : datetime)
  : option R :=
  let index := py_int (get_seconds_from_midnight local_datetime) in
  np_index magnitude_mapping index.

(** [np.linspace(start, stop, num)]: [arange(0, num) * step + start] with
    [step = (stop - start) / (num - 1)], the last entry set to [stop]. *)
Definition np_linspace (start stop : R) (num : nat) : list R :=
  match num with
  | O => []
  | S O => [start]
  | S div => map (fun k => INR k * ((stop - start) / INR div) + start) (seq 0 div) ++ [stop]
  end.

(** The search-and-interpolate part of [np.interp] for a point
    [xp[0] <= x <= xp[-1]]: find [j] with [xp[j] <= x < xp[j+1]] (for the
    increasing sample points numpy requires), return [fp[j]] when
    [x == xp[j]], the value on the segment otherwise, and [fp[-1]] when
    [x] is the last sample point. *)
Fixpoint interp_segment (x : R) (xp fp : list R) : R :=
  match xp, fp with
  | x0 :: ((x1 :: _) as xr), y0 :: ((y1 :: _) as yr) =>
      if Rlt_dec x x1 then
        (if Req_EM_T x0 x then y0 else (y1 - y0) / (x1 - x0) * (x - x0) + y0)
      else interp_segment x xr yr
  | _, y0 :: _ => y0
  | _, [] => 0
  end.

(** [np.interp(x, xp, fp)] at one point: [fp[0]] left of [xp[0]], [fp[-1]]
    right of [xp[-1]] (numpy's default [left] and [right]); an empty [xp] or
    [xp] and [fp] of different lengths raise [ValueError]. *)
Definition np_interp (x : R) (xp fp : list R) : option R :=
  match xp, fp with
  | x0 :: _, y0 :: _ =>
      if decide (length xp = length fp) then
        if Rlt_dec x x0 then Some y0
        else if Rlt_dec (List.last xp x0) x then Some (List.last fp y0)
        else Some (interp_segment x xp fp)
      else None
  | _, _ => None
  end.

(** [ImageSettings.magnitude_mapping]; the dictionary
    [magnitude_time_indices] is an association list in insertion order. *)
Definition magnitude_mapping (magnitude_values : list R)
    (magnitude_time_indices : list (R * nat)) : option (list R) :=
  let magnitude_day_percentage := map (fun '(hr, _) => hr / 24) magnitude_time_indices in
  magnitude_by_time ← mapM (fun '(_, index) => magnitude_values !! index)
                             magnitude_time_indices;
  let day_percentages := np_linspace 0 1 (24 * 60 * 60) in
  mapM (fun p => np_interp p magnitude_day_percentage magnitude_by_time) day_percentages.

(** ** settings.py: the falloff kernel *)

Definition MAXIMUM_LIGHT_SPREAD : R := 10.

(** [np.ceil], as an integer ([.astype(int)]). *)
Definition np_ceil (x : R) : Z := (- Int_part (- x))%Z.

(** [np.arange(start, stop)] on integers. *)
Definition np_arange (start stop : Z) : list Z :=
  map (fun k => (start + Z.of_nat k)%Z) (seq 0 (Z.to_nat (stop - start))).

(** [np.array(np.meshgrid(xs, ys))]: [X[i][j] = xs[j]], [Y[i][j] = ys[i]]. *)
Definition np_meshgrid (xs ys : list Z) : list (list Z) * list (list Z) :=
  (map (fun _ => xs) ys, map (fun yv => map (fun _ => yv) xs) ys).

(** [ImageSettings.area_mesh] *)
Definition area_mesh (light_spread_stddev : R) : list (list Z) * list (list Z) :=
  let maximum_radius := np_ceil (MAXIMUM_LIGHT_SPREAD * light_spread_stddev) in
  let radius_vector := np_arange (- maximum_radius) (maximum_radius + 1) in
  np_meshgrid radius_vector radius_vector.

(** [ImageSettings.brightness_gaussian] *)
Definition brightness_gaussian (light_spread_stddev radius : R) : R :=
  exp (- (radius ^ 2) / (light_spread_stddev ^ 2)).

(** [np.sqrt(area_mesh[0] ** 2 + area_mesh[1] ** 2)] *)
Definition radial_distance (mesh : list (list Z) * list (list Z)) : list (list R) :=
  zip_with (zip_with (fun a b => sqrt (IZR (a ^ 2 + b ^ 2)))) mesh.1 mesh.2.

(** [ImageSettings.brightness_scale_mesh].  [mesh = np.zeros_like(area_mesh[0])]
    has the integer dtype of [area_mesh]; every location [(x, y)] of
    [np.where(radial_distance == r)] (a row and a column index) is written
    once, [mesh[y, x] = brightness_gaussian(r)], and numpy casts the float
    to the integer dtype by truncation.  The loop over the unique radii
    writes each cell exactly once, so the result is: cell [[y][x]] holds
    the truncated Gaussian of [radial_distance[x][y]]. *)
Definition brightness_scale_mesh (light_spread_stddev : R) : list (list Z) :=
  let rd := radial_distance (area_mesh light_spread_stddev) in
  imap (fun yi row =>
          imap (fun xi _ =>
                  py_int (brightness_gaussian light_spread_stddev ((rd !!! xi) !!! yi)))
               row)
       (area_mesh light_spread_stddev).1.

(** ** populate.py: frames *)

(** A frame is a [(3, X, Y)] array: channel, then x, then y. *)
Abbreviation Frame := (list (list (list R))).

(** [get_empty_image(frames, image_pixels)] *)
Definition get_empty_image (frames image_pixels : nat) : list Frame :=
  replicate frames (replicate 3 (replicate image_pixels (replicate image_pixels 0))).

(** [fill_frame_background]: [np.swapaxes(np.ones_like(frame).T * colour, 0, -1)];
    channel [c] of the result is [frame]'s channel [c] with every entry set
    to [colour[c]]. *)
Definition fill_frame_background (colour : list R) (frame_matrix : Frame) : Frame :=
  zip_with (fun c channel => map (map (fun _ => c)) channel) colour frame_matrix.

(** [pixel_in_frame] *)
Definition pixel_in_frame (x y : Z) (image_pixels : Z) : bool :=
  (Z.leb 0 x && Z.ltb x image_pixels) && (Z.leb 0 y && Z.ltb y image_pixels).

(** [frame.shape[-1]] *)
Definition frame_last_dim (frame : Frame) : nat := length ((frame !!! 0%nat) !!! 0%nat).

(** [frame[:, x, y]] for indices already checked by [pixel_in_frame]. *)
Definition get_px (frame : Frame) (x y : Z) : list R :=
  map (fun channel => (channel !!! Z.to_nat x) !!! Z.to_nat y) frame.

(** [frame[:, x, y] = rgb] for indices already checked by [pixel_in_frame]. *)
Definition set_px (frame : Frame) (x y : Z) (rgb : list R) : Frame :=
  zip_with (fun channel c => alter (fun column => <[Z.to_nat y := c]> column) (Z.to_nat x) channel)
           frame rgb.

(** [np.average([a, b], weights=[wa, wb], axis=0)]:
    [(a * wa + b * wb).sum(axis=0) / (wa + wb)] component-wise. *)
Definition np_average2 (a b : list R) (wa wb : R) : list R :=
  zip_with (fun u v => (u * wa + v * wb) / (wa + wb)) a b.

(** The columns of a prepared table row used by [add_object_to_frame]. *)
Record ObjRow := mk_obj {
  obj_x : Z; obj_y : Z; obj_brightness : R; obj_rgb : list R }.

(** [np.ndenumerate(m)]: the indices of a two-dimensional array, row-major. *)
Definition ndindex {A} (m : list (list A)) : list (nat * nat) :=
  concat (imap (fun i row => imap (fun j _ => (i, j)) row) m).

(** [offset_xy[:, *mesh_xy]] with [offset_xy = [area_mesh[0] + x, area_mesh[1] + y]]. *)
Definition offset_xy (object_row : ObjRow) (area_mesh : list (list Z) * list (list Z))
    (mesh_xy : nat * nat) : Z * Z :=
  (((area_mesh.1 !!! mesh_xy.1) !!! mesh_xy.2 + obj_x object_row)%Z,
   ((area_mesh.2 !!! mesh_xy.1) !!! mesh_xy.2 + obj_y object_row)%Z).

(** One iteration of the loop of [add_object_to_frame]. *)
Definition add_object_step (object_row : ObjRow) (area_mesh : list (list Z) * list (list Z))
    (brightness_scale_mesh : list (list R)) (frame : Frame) (mesh_xy : nat * nat) : Frame :=
  let '(frame_x, frame_y) := offset_xy object_row area_mesh mesh_xy in
  if pixel_in_frame frame_x frame_y (Z.of_nat (frame_last_dim frame)) then
    let weight := (brightness_scale_mesh !!! mesh_xy.1) !!! mesh_xy.2 * obj_brightness object_row in
    let old_rgb := get_px frame frame_x frame_y in
    let new_rgb := np_average2 (obj_rgb object_row) old_rgb weight (1 - weight) in
    set_px frame frame_x frame_y new_rgb
  else frame.

(** [add_object_to_frame]: the loop over [np.ndenumerate(area_mesh[0])]. *)
Definition add_object_to_frame (object_row : ObjRow) (frame : Frame)
    (area_mesh : list (list Z) * list (list Z)) (brightness_scale_mesh : list (list R))
    : Frame :=
  foldl (add_object_step object_row area_mesh brightness_scale_mesh) frame (ndindex area_mesh.1).

(** ** populate.py: object tables *)

(** The columns of a queried star or planet table used here. *)
Record CatRow := mk_cat {
  cat_ra : R; cat_dec : R; cat_magnitude : R; cat_spectral_type : string }.

(** A row of the table returned by [prepare_object_table]. *)
Record PrepRow := mk_prep {
  prep_ra : R; prep_dec : R; prep_brightness : R; prep_rgb : list R }.

Definition Rle_bool (a b : R) : bool := if Rle_dec a b then true else false.

(** [filter_objects_brightness] *)
Definition filter_objects_brightness (maximum_magnitude : R) (objects_table : list CatRow)
  : list CatRow :=
  filter (fun r => Rle_bool (cat_magnitude r) maximum_magnitude) objects_table.

(** The configuration read by this module ([ImageSettings]); derived
    fields are the functions above applied to these. *)
Record ImageSettings := mk_settings {
  frames : nat;
  image_pixels : nat;
  local_datetimes : list datetime;
  observation_radec : list (R * R);
  field_of_view : R;
  object_colours : gmap string (list R);
  magnitude_values : list R;
  magnitude_time_indices : list (R * nat);
  light_spread_stddev : R }.

(** [np.moveaxis(image, 1, -1)] on one frame: [(channel, x, y)] to
    [(x, y, channel)], the sizes read from the array. *)
Definition moveaxis_channel_last (frame : Frame) : list (list (list R)) :=
  let nc := length frame in
  let nx := length (frame !!! 0%nat) in
  let ny := length ((frame !!! 0%nat) !!! 0%nat) in
  map (fun x => map (fun y => map (fun c => ((frame !!! c) !!! x) !!! y) (seq 0 nc))
                    (seq 0 ny))
      (seq 0 nx).

(** [np.flip(image, axis=2)] on one [(x, y, channel)] frame: reverse [y]. *)
Definition flip_y (frame : list (list (list R))) : list (list (list R)) :=
  map (@rev (list R)) frame.

(** Re-sorting the frames: [for index, frame in filled_frames:
    image_matrix[index] = frame]. *)
Definition reinsert_frames (filled_frames : list (nat * Frame)) (image_matrix : list Frame)
  : list Frame :=
  foldl (fun img '(index, frame) => <[index := frame]> img) image_matrix filled_frames.

Section Populate.

(** External collaborators: matplotlib's [LinearSegmentedColormap] built
    from the colour settings (day fraction to RGBA), astropy's
    [SkyCoord.to_pixel] for frame [i]'s WCS (ra, dec to pixel x, y), and
    astropy's angular separation of two (ra, dec) points. *)
Variable colour_mapping : R -> list R.
Variable world_to_pixel : nat -> R -> R -> R * R.
Variable separation : R * R -> R * R -> R.

(** [get_timed_background_colour]: the colour map's RGBA without alpha. *)
Definition get_timed_background_colour (local_datetime : datetime) : list R :=
  removelast (colour_mapping (get_seconds_from_midnight local_datetime / (24 * 60 * 60))).

(** [filter_objects_fov] *)
Definition filter_objects_fov (radec : R * R) (fov : R) (objects_table : list CatRow)
  : list CatRow :=
  let maximum_separation := fov / 2 * 1.01 in
  filter (fun r => Rle_bool (separation (cat_ra r, cat_dec r) radec) maximum_separation)
         objects_table.

(** [prepare_object_table] *)
Definition prepare_object_table (image_settings : ImageSettings)
    (star_table : list CatRow) (planet_tables : list (list CatRow)) (frame : nat)
    : option (list PrepRow) :=
  planets ← planet_tables !! frame;
  let object_table := star_table ++ planets in
  mapping ← magnitude_mapping (magnitude_values image_settings)
                              (magnitude_time_indices image_settings);
  local_datetime ← local_datetimes image_settings !! frame;
  current_maximum_magnitude ← get_timed_magnitude mapping local_datetime;
  let object_table := filter_objects_brightness current_maximum_magnitude object_table in
  radec ← observation_radec image_settings !! frame;
  let object_table := filter_objects_fov radec (field_of_view image_settings) object_table in
  if decide (length object_table = 0%nat) then Some [] else
  brightness ← get_scaled_brightness (map cat_magnitude object_table);
  rgb ← mapM (fun r => object_colours image_settings !! cat_spectral_type r) object_table;
  Some (zip_with (fun r '(b, c) => mk_prep (cat_ra r) (cat_dec r) b c)
                 object_table (zip brightness rgb)).

(** [fill_frame_objects]: pixel coordinates are
    [np.flipud(np.round(to_pixel(wcs))).astype(int)], so [x] is the rounded
    second and [y] the rounded first coordinate of [to_pixel]. *)
Definition fill_frame_objects (image_settings : ImageSettings) (index : nat)
    (frame : Frame) (objects_table : list PrepRow) : nat * Frame :=
  let rows := map (fun r =>
                     let p := world_to_pixel index (prep_ra r) (prep_dec r) in
                     mk_obj (np_rint p.2) (np_rint p.1) (prep_brightness r) (prep_rgb r))
                  objects_table in
  let mesh := area_mesh (light_spread_stddev image_settings) in
  let weights := map (map IZR) (brightness_scale_mesh (light_spread_stddev image_settings)) in
  (index, foldl (fun fr row => add_object_to_frame row fr mesh weights) frame rows).

(** The background loop of [create_image_matrix]. *)
Fixpoint fill_backgrounds (image_settings : ImageSettings) (indices : list nat)
    (image_matrix : list Frame) : option (list Frame) :=
  match indices with
  | [] => Some image_matrix
  | i :: rest =>
      local_datetime ← local_datetimes image_settings !! i;
      let background_colour := get_timed_background_colour local_datetime in
      fill_backgrounds image_settings rest
        (<[i := fill_frame_background background_colour (image_matrix !!! i)]> image_matrix)
  end.

(** The argument list handed to [pool.starmap]: one task per frame whose
    table is not empty, each with its own frame buffer. *)
Definition frame_tasks (image_settings : ImageSettings) (image_matrix : list Frame)
    (object_tables : list (list PrepRow)) : list (nat * Frame * list PrepRow) :=
  filter (fun '(_, _, t) => negb (Nat.eqb (length t) 0))
         (map (fun i => (i, image_matrix !!! i, object_tables !!! i))
              (seq 0 (frames image_settings))).

(** What the pool returns: [fill_frame_objects] applied to every task. *)
Definition run_tasks (image_settings : ImageSettings)
    (tasks : list (nat * Frame * list PrepRow)) : list (nat * Frame) :=
  map (fun '(i, fr, t) => fill_frame_objects image_settings i fr t) tasks.

(** [create_image_matrix]; [pool.starmap] returns its results in task order. *)
Definition create_image_matrix (image_settings : ImageSettings)
    (planet_tables : list (list CatRow)) (star_table : list CatRow)
    : option (list (list (list (list R)))) :=
  let image_matrix := get_empty_image (frames image_settings) (image_pixels image_settings) in
  image_matrix ← fill_backgrounds image_settings (seq 0 (frames image_settings)) image_matrix;
  object_tables ← mapM (prepare_object_table image_settings star_table planet_tables)
                       (seq 0 (frames image_settings));
  let filled_frames :=
    run_tasks image_settings (frame_tasks image_settings image_matrix object_tables) in
  let image_matrix := reinsert_frames filled_frames image_matrix in
  let image_matrix := map moveaxis_channel_last image_matrix in
  Some (map flip_y image_matrix).

(** The reference for reassembly: every frame composited in place, one
    after the other, in frame order. *)
Definition fill_frames_sequentially (image_settings : ImageSettings)
    (object_tables : list (list PrepRow)) (image_matrix : list Frame) : list Frame :=
  foldl (fun img i =>
           <[i := (fill_frame_objects image_settings i (img !!! i) (object_tables !!! i)).2]> img)
        image_matrix (seq 0 (frames image_settings)).

End Populate.

(** ** Array shapes and value ranges *)

(** A [(X, Y)] channel with [X = Y = n]. *)
Definition channel_shape (n : nat) (channel : list (list R)) : Prop :=
  length channel = n /\ Forall (fun column => length column = n) channel.

(** A frame of shape [(3, n, n)]. *)
Definition frame_shape (n : nat) (frame : Frame) : Prop :=
  length frame = 3%nat /\ Forall (channel_shape n) frame.

Definition in_unit (v : R) : Prop := 0 <= v <= 1.

(** Every entry of a nested array lies in [[0, 1]]. *)
Definition frame_in_unit (frame : list (list (list R))) : Prop :=
  Forall (Forall (Forall in_unit)) frame.

(** The sum of a pixel's channel values. *)
Definition rgb_sum (rgb : list R) : R := fold_right Rplus 0 rgb.

(** A frame of the returned matrix: [(X, Y, channel)] with [X = Y = n],
    three channels, every value in [[0, 1]]. *)
Definition output_frame (n : nat) (frame : list (list (list R))) : Prop :=
  length frame = n /\
  Forall (fun column => length column = n /\
                        Forall (fun rgb => length rgb = 3%nat /\ Forall in_unit rgb) column) frame.

(** An example configuration: one frame of 2 x 2 pixels at midnight,
    pointing at (0, 0) with a field of view of 1 degree, one colour for
    spectral type "G", a single magnitude control point (5 at hour 0),
    light spread 1. *)
Definition example_settings : ImageSettings :=
  mk_settings 1 2 [mk_datetime 0 0 0 0] [(0, 0)] 1 {[ "G"%string := [1; 1; 1] ]}
              [5] [(0, 0%nat)] 1.

(** The convex combination [weight * object_colour + (1 - weight) * old_colour]. *)
Definition convex_blend (weight : R) (object_colour old_colour : list R) : list R :=
  zip_with (fun c old => weight * c + (1 - weight) * old) object_colour old_colour.

(** * Further definitions *)

(** ** settings.py: snapshot times *)

(** A [datetime.timedelta], or a [datetime] on a fixed time line, as a
    whole number of microseconds: timedelta arithmetic is exact on them. *)

(** [timedelta.total_seconds()] *)
Definition total_seconds (td : Z) : R := IZR td / 1000000.

(** [ImageSettings.compare_timespans]: [None] is its [ValueError]. *)
Definition compare_timespans (snapshot_frequency duration : Z) : option unit :=
  if Z.ltb duration snapshot_frequency then None else Some tt.

(** [ImageSettings.frames]: [int(duration / snapshot_frequency)] for a
    positive interval ([timedelta / timedelta] divides the microsecond
    counts), 1 otherwise. *)
Definition settings_frames (snapshot_frequency duration : Z) : Z :=
  if Rlt_dec 0 (total_seconds snapshot_frequency)
  then py_int (IZR duration / IZR snapshot_frequency)
  else 1%Z.

(** [ImageSettings.observation_times]:
    [[start_datetime + snapshot_frequency * i for i in range(frames)]]. *)
Definition observation_times (start_datetime snapshot_frequency frames : Z) : list Z :=
  map (fun i => (start_datetime + snapshot_frequency * Z.of_nat i)%Z)
      (seq 0 (Z.to_nat frames)).

(** [time_to_timedelta]: [timedelta(hours=.., minutes=.., seconds=..,
    microseconds=..)], in microseconds. *)
Definition time_to_timedelta (time_object : datetime) : Z :=
  (Z.of_nat (hour time_object) * 3600000000 + Z.of_nat (minute time_object) * 60000000
   + Z.of_nat (second time_object) * 1000000 + Z.of_nat (microsecond time_object))%Z.

(** [ImageSettings.maximum_magnitude]: Python's [max]; an empty list raises. *)
Definition maximum_magnitude (magnitude_values : list R) : option R :=
  match magnitude_values with [] => None | m :: ms => Some (fold_left Rmax ms m) end.

(** ** Temporary files and the ffmpeg call *)

(** [PlotSettings.tempfile_zfill]: [np.ceil(np.log10(frames)).astype(int)]. *)
Definition tempfile_zfill (frames : nat) : Z := np_ceil (log10 (INR frames)).

(** [str(n)] of a non-negative integer: its decimal digits. *)
Fixpoint py_str_nat_aux (fuel n : nat) (acc : string) : string :=
  match fuel with
  | O => acc
  | S fuel' =>
      let acc' := String (Ascii.ascii_of_nat (48 + n mod 10)) acc in
      if Nat.ltb n 10 then acc' else py_str_nat_aux fuel' (n / 10) acc'
  end.

Definition py_str_nat (n : nat) : string := py_str_nat_aux (S n) n EmptyString.

(** [str.zfill(width)] on a string without a sign: pad with "0" on the left
    up to [width] characters. *)
Definition zfill (s : string) (width : Z) : string :=
  String.append (String.concat EmptyString
                   (List.repeat "0"%string (Z.to_nat width - String.length s))) s.

Definition TEMPFILE_SUFFIX : string := ".png".

(** The file name part of [get_tempfile_path]:
    [f"{str(frame_index).zfill(tempfile_zfill)}{TEMPFILE_SUFFIX}"]. *)
Definition tempfile_name (tempfile_zfill : Z) (frame_index : nat) : string :=
  String.append (zfill (py_str_nat frame_index) tempfile_zfill) TEMPFILE_SUFFIX.

(** The side of the output in [construct_ffmpeg_call]:
    [np.ceil(max(figure_size) * dpi).astype(int)], plus one when odd. *)
Definition ffmpeg_output_pixels (figure_size : R * R) (dpi : Z) : Z :=
  let output_pixels := np_ceil (Rmax figure_size.1 figure_size.2 * IZR dpi) in
  if negb (Z.eqb (Z.modulo output_pixels 2) 0) then (output_pixels + 1)%Z
  else output_pixels.

(** ** query.py: spectral types *)

Definition FALLBACK_SPECTRAL_TYPE : string := "fallback".

(** The "name" column of [SOLARSYSTEM_BODIES]. *)
Definition SOLARSYSTEM_BODIES_names : list string :=
  ["mercury"; "venus"; "mars"; "jupiter"; "saturn"; "uranus"; "neptune"]%string.

(** [get_spectral_types]: the keys of [object_colours] that are neither a
    planet nor the fallback, in the map's key order. *)
Definition get_spectral_types (object_colours : gmap string (list R)) : list string :=
  let spectral_types :=
    filter (fun i => i ∉ SOLARSYSTEM_BODIES_names) (map fst (map_to_list object_colours)) in
  filter (fun i => i <> FALLBACK_SPECTRAL_TYPE) spectral_types.

(** [get_single_spectral_type]: the longest prefix
    [spectral_type[:i]], for [i in range(len(spectral_type), 0, -1)], that
    is acceptable, or the fallback. *)
Definition get_single_spectral_type (spectral_type : string)
    (acceptable_types : list string) : string :=
  if decide (String.length spectral_type = 0%nat) then FALLBACK_SPECTRAL_TYPE
  else match List.find (fun i => bool_decide (String.substring 0 i spectral_type ∈ acceptable_types))
                       (rev (seq 1 (String.length spectral_type))) with
       | Some i => String.substring 0 i spectral_type
       | None => FALLBACK_SPECTRAL_TYPE
       end.

(** [simplify_spectral_types]: the "spectral_type" column replaced by
    [get_single_spectral_type] of each entry. *)
Definition simplify_spectral_types (star_table : list CatRow) (acceptable_types : list string)
  : list CatRow :=
  map (fun r => mk_cat (cat_ra r) (cat_dec r) (cat_magnitude r)
                       (get_single_spectral_type (cat_spectral_type r) acceptable_types))
      star_table.

(** ** settings.py: reading the TOML configuration *)

(** The Python exceptions raised by the configuration helpers. *)
Inductive PyError := KeyError | TypeError | IndexError | ValueError.

(** A computation that returns an [A] or raises. *)
Definition py_bind {A B} (m : PyError + A) (f : A -> PyError + B) : PyError + B :=
  match m with inl e => inl e | inr a => f a end.

(** A [for] loop whose body may raise. *)
Fixpoint py_for {A} (l : list A) (body : A -> PyError + unit) : PyError + unit :=
  match l with
  | [] => inr tt
  | x :: l' => py_bind (body x) (fun _ => py_for l' body)
  end.

(** A list comprehension whose element expression may raise. *)
Fixpoint py_map {A B} (f : A -> PyError + B) (l : list A) : PyError + list B :=
  match l with
  | [] => inr []
  | x :: l' => py_bind (f x) (fun y => py_bind (py_map f l') (fun ys => inr (y :: ys)))
  end.

(** [str.split(sep)] for a one-character separator. *)
Fixpoint py_str_split (sep : Ascii.ascii) (s : string) : list string :=
  match s with
  | EmptyString => [EmptyString]
  | String c rest =>
      let parts := py_str_split sep rest in
      if decide (c = sep) then EmptyString :: parts
      else match parts with
           | p :: ps => String c p :: ps
           | [] => [String c EmptyString]
           end
  end.

(** [split_nested_key]: [full_key.split(".")]. *)
Definition split_nested_key (full_key : string) : list string :=
  py_str_split "."%char full_key.

(** The keys checked by [check_mandatory_toml_keys]. *)
Definition mandatory_keys : list string :=
  map (fun key => String.append "observation." key) ["location"; "date"; "time"]%string
  ++ ["image.filename"%string].

Definition one_or_more_keys : list (list string) :=
  map (fun key =>
         map (fun unit => String.append "observation." (String.append key (String.append "." unit)))
             ["degrees"; "arcminutes"; "arcseconds"]%string)
      ["viewing-radius"; "altitude"; "azimuth"]%string.

Definition all_or_none_keys : list (list string) :=
  [map (fun key => String.append "observation." key) ["interval"; "duration"]%string;
   map (fun key => String.append "image." key) ["width"; "height"]%string].

Section Toml.

(** The scalars and arrays of a TOML document, and Python's [str] of one. *)
Variable Leaf : Type.
Variable leaf_str : Leaf -> string.

(** A value of the dictionary returned by [tomllib]: a leaf or a table. *)
Inductive TomlValue :=
  | TLeaf (v : Leaf)
  | TTable (entries : list (string * TomlValue)).

Definition TOMLConfig := list (string * TomlValue).

(** [d[key]] on a dictionary. *)
Definition dict_getitem (d : TOMLConfig) (key : string) : PyError + TomlValue :=
  match List.find (fun kv => String.eqb kv.1 key) d with
  | Some kv => inr kv.2
  | None => inl KeyError
  end.

(** [v[key]] on a value: a leaf (a string, number, date or array) raises
    [TypeError] for a string key. *)
Definition py_getitem (v : TomlValue) (key : string) : PyError + TomlValue :=
  match v with
  | TTable d => dict_getitem d key
  | TLeaf _ => inl TypeError
  end.

(** [access_nested_dictionary]: walk [keys[:-1]], then index by [keys[-1]]. *)
Definition access_nested_dictionary (dictionary : TOMLConfig) (keys : list string)
  : PyError + TomlValue :=
  py_bind (fold_left (fun sub key => py_bind sub (fun s => py_getitem s key))
                     (removelast keys) (inr (TTable dictionary)))
          (fun subdictionary =>
             match rev keys with
             | [] => inl IndexError
             | key :: _ => py_getitem subdictionary key
             end).

(** [len(str(value)) > 0]: the [str] of a table starts with "{". *)
Definition py_str_nonempty (value : TomlValue) : bool :=
  match value with
  | TLeaf v => negb (String.eqb (leaf_str v) EmptyString)
  | TTable _ => true
  end.

(** [check_key_exists]: [KeyError] and [AssertionError] give [False];
    any other exception propagates. *)
Definition check_key_exists (dictionary : TOMLConfig) (full_key : string) : PyError + bool :=
  match access_nested_dictionary dictionary (split_nested_key full_key) with
  | inr value => inr (py_str_nonempty value)
  | inl KeyError => inr false
  | inl e => inl e
  end.

(** [get_config_option] *)
Definition get_config_option (toml_dictionary : TOMLConfig) (toml_key : string)
    (default_config : TOMLConfig) (default_key : option string) : PyError + TomlValue :=
  py_bind (check_key_exists toml_dictionary toml_key) (fun key_exists =>
    if key_exists then access_nested_dictionary toml_dictionary (split_nested_key toml_key)
    else
      let default_key := match default_key with None => toml_key | Some k => k end in
      access_nested_dictionary default_config (split_nested_key default_key)).

(** [check_mandatory_toml_keys]: each comprehension checks every key of its
    group before the group is judged. *)
Definition check_mandatory_toml_keys (dictionary : TOMLConfig) : PyError + unit :=
  py_bind
    (py_for mandatory_keys (fun key =>
       py_bind (check_key_exists dictionary key) (fun b =>
         if b then inr tt else inl ValueError)))
    (fun _ => py_bind
      (py_for one_or_more_keys (fun keyset =>
         py_bind (py_map (check_key_exists dictionary) keyset) (fun keys_exist =>
           if existsb (fun b : bool => b) keys_exist then inr tt else inl ValueError)))
      (fun _ =>
        py_for all_or_none_keys (fun keyset =>
          py_bind (py_map (check_key_exists dictionary) keyset) (fun keys_exist =>
            if negb (forallb (fun b : bool => b) keys_exist) && existsb (fun b : bool => b) keys_exist
            then inl ValueError else inr tt)))).

End Toml.

Arguments TLeaf {Leaf} v.
Arguments TTable {Leaf} entries.
Arguments dict_getitem {Leaf} d key.
Arguments py_getitem {Leaf} v key.
Arguments access_nested_dictionary {Leaf} dictionary keys.
Arguments py_str_nonempty {Leaf} leaf_str value.
Arguments check_key_exists {Leaf} leaf_str dictionary full_key.
Arguments get_config_option {Leaf} leaf_str toml_dictionary toml_key default_config default_key.
Arguments check_mandatory_toml_keys {Leaf} leaf_str dictionary.

(** ** Ranges of the time fields *)

(** A time of day as [datetime.time] allows it. *)
Definition valid_time (t : datetime) : Prop :=
  (hour t < 24)%nat /\ (minute t < 60)%nat /\ INR (microsecond t) < 1000000.

(** A [datetime.time] as TOML parses it: each field within its range. *)
Definition valid_clock (t : datetime) : Prop :=
  (hour t < 24)%nat /\ (minute t < 60)%nat /\ (second t < 60)%nat /\
  (Z.of_nat (microsecond t) < 1000000)%Z.

(** ** Reading the TOML configuration: helpers *)

(** The errors of a walk through nested tables: a missing key or a leaf
    indexed by a key. *)
Definition walk_error {Leaf} (m : PyError + TomlValue Leaf) : Prop :=
  forall e, m = inl e -> e = KeyError \/ e = TypeError.

(** A concrete character is missing from a concrete string. *)
Ltac not_elem_of_string :=
  let Hin := fresh "Hin" in
  intros Hin; apply list_elem_of_In in Hin; vm_compute in Hin;
  repeat (destruct Hin as [Hin|Hin]; [discriminate Hin|]); exact Hin.

(** Example configurations: a user file and a default file. *)
Definition witness_user_config : TOMLConfig string :=
  [("observation", TTable [("location", TLeaf "Paris"); ("date", TLeaf "2024-06-21");
                           ("time", TLeaf "22:00");
                           ("viewing-radius", TTable [("degrees", TLeaf "70")]);
                           ("altitude", TTable [("degrees", TLeaf "45")]);
                           ("azimuth", TTable [("arcminutes", TLeaf "30")]);
                           ("interval", TLeaf "00:10")]);
   ("image", TTable [("filename", TLeaf "sky.png"); ("fps", TLeaf "")])]%string.

Definition witness_default_config : TOMLConfig string :=
  [("image", TTable [("fps", TLeaf "10"); ("dpi", TLeaf "250")])]%string.


(** * Proofs *)

(** ** Rounding *)

Lemma Int_part_IZR (z : Z) : Int_part (IZR z) = z.
Proof.
  unfold Int_part.
  rewrite <- (tech_up (IZR z) (z + 1)); [lia| |]; rewrite plus_IZR; lra.
Qed.

Lemma Int_part_bounds (x : R) : IZR (Int_part x) <= x < IZR (Int_part x) + 1.
Proof. destruct (base_Int_part x). lra. Qed.

Lemma np_rint_IZR (z : Z) : np_rint (IZR z) = z.
Proof.
  unfold np_rint. rewrite Int_part_IZR.
  destruct (Rlt_dec (IZR z - IZR z) (1/2)); [reflexivity | lra].
Qed.

Lemma np_rint_close (x : R) : IZR (np_rint x) - 1/2 <= x <= IZR (np_rint x) + 1/2.
Proof.
  pose proof (Int_part_bounds x) as Hb.
  unfold np_rint.
  destruct (Rlt_dec _ _); [lra|].
  destruct (Rlt_dec _ _); [rewrite plus_IZR; lra|].
  destruct (Z.even _); [lra | rewrite plus_IZR; lra].
Qed.

Lemma np_rint_mono (x y : R) : x <= y -> (np_rint x <= np_rint y)%Z.
Proof.
  intros Hxy.
  destruct (Z_le_gt_dec (np_rint x) (np_rint y)) as [|Hgt]; [assumption|].
  exfalso.
  pose proof (np_rint_close x). pose proof (np_rint_close y).
  assert (Hle : IZR (np_rint y) + 1 <= IZR (np_rint x)).
  { rewrite <- plus_IZR. apply IZR_le. lia. }
  assert (x = y) by lra. subst y. lia.
Qed.

Lemma pow10_pos (d : nat) : 0 < 10 ^ d.
Proof. apply pow_lt. lra. Qed.

Lemma np_round_mono (d : nat) (x y : R) : x <= y -> np_round d x <= np_round d y.
Proof.
  intros Hxy. unfold np_round, Rdiv.
  pose proof (pow10_pos d).
  apply Rmult_le_compat_r; [left; apply Rinv_0_lt_compat; lra|].
  apply IZR_le, np_rint_mono. apply Rmult_le_compat_r; lra.
Qed.

Lemma np_round_IZR_scaled (d : nat) (x : R) (z : Z) :
  x * 10 ^ d = IZR z -> np_round d x = x.
Proof.
  intros Hz. unfold np_round. rewrite Hz, np_rint_IZR, <- Hz.
  pose proof (pow10_pos d). field. lra.
Qed.

Lemma np_round5_min : np_round 5 MINIMUM_BRIGHTNESS = MINIMUM_BRIGHTNESS.
Proof. apply (np_round_IZR_scaled _ _ 20000). unfold MINIMUM_BRIGHTNESS. simpl. lra. Qed.

Lemma np_round5_one : np_round 5 1 = 1.
Proof. apply (np_round_IZR_scaled _ _ 100000). simpl. lra. Qed.

(** ** [np.min] and [np.max] *)

Lemma fold_Rmin_spec (xs : list R) (a : R) :
  let m := fold_left Rmin xs a in
  m <= a /\ (forall y, In y xs -> m <= y) /\ (m = a \/ In m xs).
Proof.
  revert a. induction xs as [|x xs IH]; intros a; simpl.
  - split; [lra|]. split; [tauto | left; reflexivity].
  - destruct (IH (Rmin a x)) as (H1 & H2 & H3).
    split; [pose proof (Rmin_l a x); lra|].
    split.
    + intros y [<-|Hy]; [pose proof (Rmin_r a x); lra | auto].
    + destruct H3 as [->|H3]; [|right; right; exact H3].
      unfold Rmin. destruct (Rle_dec a x); [left | right; left]; reflexivity.
Qed.

Lemma fold_Rmax_spec (xs : list R) (a : R) :
  let m := fold_left Rmax xs a in
  a <= m /\ (forall y, In y xs -> y <= m) /\ (m = a \/ In m xs).
Proof.
  revert a. induction xs as [|x xs IH]; intros a; simpl.
  - split; [lra|]. split; [tauto | left; reflexivity].
  - destruct (IH (Rmax a x)) as (H1 & H2 & H3).
    split; [pose proof (Rmax_l a x); lra|].
    split.
    + intros y [<-|Hy]; [pose proof (Rmax_r a x); lra | auto].
    + destruct H3 as [->|H3]; [|right; right; exact H3].
      unfold Rmax. destruct (Rle_dec a x); [right; left | left]; reflexivity.
Qed.

Lemma np_min_spec (l : list R) (m : R) :
  np_min l = Some m <-> In m l /\ (forall y, In y l -> m <= y).
Proof.
  destruct l as [|a xs]; simpl.
  - split; [discriminate | intros [[] _]].
  - destruct (fold_Rmin_spec xs a) as (H1 & H2 & H3).
    split.
    + intros Hm. injection Hm as <-. split.
      * destruct H3 as [->|H3]; [left | right]; auto.
      * intros y [<-|Hy]; auto.
    + intros [Hin Hle]. f_equal. apply Rle_antisym.
      * destruct Hin as [<-|Hin]; auto.
      * destruct H3 as [->|H3]; apply Hle; [left | right]; auto.
Qed.

Lemma np_max_spec (l : list R) (m : R) :
  np_max l = Some m <-> In m l /\ (forall y, In y l -> y <= m).
Proof.
  destruct l as [|a xs]; simpl.
  - split; [discriminate | intros [[] _]].
  - destruct (fold_Rmax_spec xs a) as (H1 & H2 & H3).
    split.
    + intros Hm. injection Hm as <-. split.
      * destruct H3 as [->|H3]; [left | right]; auto.
      * intros y [<-|Hy]; auto.
    + intros [Hin Hle]. f_equal. apply Rle_antisym.
      * destruct H3 as [->|H3]; apply Hle; [left | right]; auto.
      * destruct Hin as [<-|Hin]; auto.
Qed.

Lemma np_min_exists (l : list R) : l <> [] -> exists m, np_min l = Some m.
Proof. destruct l; [congruence | eexists; reflexivity]. Qed.

Lemma np_max_exists (l : list R) : l <> [] -> exists m, np_max l = Some m.
Proof. destruct l; [congruence | eexists; reflexivity]. Qed.

(** [List.map] is stdpp's list [fmap]. *)
Lemma map_as_fmap {A B} (f : A -> B) (l : list A) : map f l = f <$> l.
Proof. induction l as [|x l IH]; simpl; [reflexivity | rewrite IH; reflexivity]. Qed.

(** ** Brightness scaling *)

Lemma log10_magnitude_to_flux (m : R) : log10 (magnitude_to_flux m) = - m / 2.5.
Proof.
  unfold log10, magnitude_to_flux, Rpower. rewrite ln_exp.
  assert (0 < ln 10) by (rewrite <- ln_1; apply ln_increasing; lra).
  field. lra.
Qed.

(** The log-brightness column, in closed form. *)
Lemma get_scaled_brightness_eq (magnitude : list R) (mn mx : R) :
  np_min magnitude = Some mn -> np_max magnitude = Some mx ->
  get_scaled_brightness magnitude =
  Some (map (fun m =>
         np_round 5 ((- m / 2.5 - - mx / 2.5) *
                     ((1 - MINIMUM_BRIGHTNESS) /
                      (if Req_EM_T (- mn / 2.5 - - mx / 2.5) 0 then 1
                       else - mn / 2.5 - - mx / 2.5)) + MINIMUM_BRIGHTNESS))
            magnitude).
Proof.
  intros Hmn Hmx.
  apply np_min_spec in Hmn as [Hmn_in Hmn_le].
  apply np_max_spec in Hmx as [Hmx_in Hmx_le].
  unfold get_scaled_brightness, linear_rescale.
  rewrite map_map.
  rewrite (map_ext (fun m => log10 (magnitude_to_flux m)) (fun m => - m / 2.5))
    by (intros; apply log10_magnitude_to_flux).
  assert (Hmin : np_min (map (fun m => - m / 2.5) magnitude) = Some (- mx / 2.5)).
  { apply np_min_spec. split; [apply (in_map (fun m => - m / 2.5)); exact Hmx_in|].
    intros y Hy. apply in_map_iff in Hy as (m & <- & Hm).
    pose proof (Hmx_le m Hm). lra. }
  assert (Hmax : np_max (map (fun m => - m / 2.5) magnitude) = Some (- mn / 2.5)).
  { apply np_max_spec. split; [apply (in_map (fun m => - m / 2.5)); exact Hmn_in|].
    intros y Hy. apply in_map_iff in Hy as (m & <- & Hm).
    pose proof (Hmn_le m Hm). lra. }
  rewrite Hmin. simpl. rewrite Hmax. simpl.
  f_equal. rewrite !List.map_map. reflexivity.
Qed.

(** The rescaled value of a non-degenerate column, before rounding. *)
Lemma rescaled_value (mn mx m : R) : mn < mx ->
  (- m / 2.5 - - mx / 2.5) *
  ((1 - MINIMUM_BRIGHTNESS) /
   (if Req_EM_T (- mn / 2.5 - - mx / 2.5) 0 then 1 else - mn / 2.5 - - mx / 2.5))
  + MINIMUM_BRIGHTNESS
  = (1 - MINIMUM_BRIGHTNESS) * (mx - m) / (mx - mn) + MINIMUM_BRIGHTNESS.
Proof.
  intros Hlt. destruct (Req_EM_T _ 0) as [He|_]; [exfalso; lra|].
  field. lra.
Qed.

Lemma rescaled_antitone (mn mx m m' : R) : mn < mx -> m <= m' ->
  (1 - MINIMUM_BRIGHTNESS) * (mx - m') / (mx - mn) + MINIMUM_BRIGHTNESS <=
  (1 - MINIMUM_BRIGHTNESS) * (mx - m) / (mx - mn) + MINIMUM_BRIGHTNESS.
Proof.
  intros Hlt Hle. unfold MINIMUM_BRIGHTNESS, Rdiv.
  apply Rplus_le_compat_r, Rmult_le_compat_r; [left; apply Rinv_0_lt_compat; lra | lra].
Qed.

Lemma rescaled_at_max (mn mx : R) : mn < mx ->
  (1 - MINIMUM_BRIGHTNESS) * (mx - mx) / (mx - mn) + MINIMUM_BRIGHTNESS = MINIMUM_BRIGHTNESS.
Proof. intros. field. lra. Qed.

Lemma rescaled_at_min (mn mx : R) : mn < mx ->
  (1 - MINIMUM_BRIGHTNESS) * (mx - mn) / (mx - mn) + MINIMUM_BRIGHTNESS = 1.
Proof. intros. field. lra. Qed.

(** Every brightness lies in [[MINIMUM_BRIGHTNESS, 1]], degenerate column or not. *)
Lemma get_scaled_brightness_bounds (magnitude brightness : list R) :
  get_scaled_brightness magnitude = Some brightness ->
  length brightness = length magnitude /\
  forall b, In b brightness -> MINIMUM_BRIGHTNESS <= b <= 1.
Proof.
  intros H.
  assert (Hne : magnitude <> []) by (intros ->; discriminate).
  destruct (np_min_exists magnitude Hne) as [mn Hmn].
  destruct (np_max_exists magnitude Hne) as [mx Hmx].
  rewrite (get_scaled_brightness_eq _ mn mx Hmn Hmx) in H. injection H as <-.
  rewrite List.length_map. split; [reflexivity|].
  apply np_min_spec in Hmn as [_ Hmn_le]. apply np_max_spec in Hmx as [_ Hmx_le].
  intros b Hb. apply in_map_iff in Hb as (m & <- & Hm).
  pose proof (Hmn_le m Hm). pose proof (Hmx_le m Hm).
  destruct (Rlt_or_le mn mx) as [Hlt|Hge].
  - rewrite (rescaled_value mn mx m Hlt).
    pose proof (rescaled_antitone mn mx m mx Hlt ltac:(lra)) as Hlo.
    pose proof (rescaled_antitone mn mx mn m Hlt ltac:(lra)) as Hhi.
    rewrite (rescaled_at_max mn mx Hlt) in Hlo. rewrite (rescaled_at_min mn mx Hlt) in Hhi.
    split.
    + eapply Rle_trans; [right; symmetry; apply np_round5_min | apply np_round_mono; exact Hlo].
    + eapply Rle_trans; [apply np_round_mono; exact Hhi | right; apply np_round5_one].
  - assert (m = mx) by lra. assert (mn = mx) by lra. subst.
    destruct (Req_EM_T _ 0) as [_|Hne0]; [|exfalso; lra].
    replace ((- mx / 2.5 - - mx / 2.5) * ((1 - MINIMUM_BRIGHTNESS) / 1) + MINIMUM_BRIGHTNESS)
      with MINIMUM_BRIGHTNESS by lra.
    rewrite np_round5_min. unfold MINIMUM_BRIGHTNESS. lra.
Qed.

(** C5 *)
(** Claim C5: for a magnitude column that is not degenerate (two different
    values occur), the brightness column computed by [get_scaled_brightness]
    has minimum [MINIMUM_BRIGHTNESS] and maximum 1, the record of minimum
    magnitude has brightness 1, and brightness is antitone in magnitude. *)
Theorem get_scaled_brightness_min_max (magnitude : list R) :
  (exists a b, In a magnitude /\ In b magnitude /\ a <> b) ->
  exists brightness,
    get_scaled_brightness magnitude = Some brightness /\
    length brightness = length magnitude /\
    np_min brightness = Some MINIMUM_BRIGHTNESS /\
    np_max brightness = Some 1 /\
    (forall i mi, magnitude !! i = Some mi -> np_min magnitude = Some mi ->
                  brightness !! i = Some 1) /\
    (forall i j mi mj bi bj,
        magnitude !! i = Some mi -> magnitude !! j = Some mj ->
        brightness !! i = Some bi -> brightness !! j = Some bj ->
        mi <= mj -> bj <= bi).
Proof.
  intros (a & b & Ha & Hb & Hab).
  destruct (np_min_exists magnitude) as [mn Hmn]; [destruct magnitude; [contradiction | discriminate]|].
  destruct (np_max_exists magnitude) as [mx Hmx]; [destruct magnitude; [contradiction | discriminate]|].
  pose proof Hmn as Hmn'. pose proof Hmx as Hmx'.
  apply np_min_spec in Hmn' as [Hmn_in Hmn_le]. apply np_max_spec in Hmx' as [Hmx_in Hmx_le].
  assert (Hlt : mn < mx).
  { pose proof (Hmn_le a Ha). pose proof (Hmn_le b Hb).
    pose proof (Hmx_le a Ha). pose proof (Hmx_le b Hb).
    destruct (Rlt_or_le mn mx); [assumption|]. exfalso. apply Hab. lra. }
  set (f := fun m => np_round 5 ((1 - MINIMUM_BRIGHTNESS) * (mx - m) / (mx - mn)
                                 + MINIMUM_BRIGHTNESS)).
  assert (Heq : get_scaled_brightness magnitude = Some (map f magnitude)).
  { rewrite (get_scaled_brightness_eq _ mn mx Hmn Hmx). f_equal.
    apply map_ext. intros m. unfold f. rewrite (rescaled_value mn mx m Hlt). reflexivity. }
  assert (Hf_anti : forall m m', m <= m' -> f m' <= f m).
  { intros m m' Hle. unfold f. apply np_round_mono, rescaled_antitone; assumption. }
  assert (Hf_mx : f mx = MINIMUM_BRIGHTNESS).
  { unfold f. rewrite (rescaled_at_max mn mx Hlt). apply np_round5_min. }
  assert (Hf_mn : f mn = 1).
  { unfold f. rewrite (rescaled_at_min mn mx Hlt). apply np_round5_one. }
  exists (map f magnitude). split; [exact Heq|].
  split; [apply List.length_map|].
  split.
  { apply np_min_spec. split.
    - rewrite <- Hf_mx. apply in_map. exact Hmx_in.
    - intros y Hy. apply in_map_iff in Hy as (m & <- & Hm).
      rewrite <- Hf_mx. apply Hf_anti, Hmx_le, Hm. }
  split.
  { apply np_max_spec. split.
    - rewrite <- Hf_mn. apply in_map. exact Hmn_in.
    - intros y Hy. apply in_map_iff in Hy as (m & <- & Hm).
      rewrite <- Hf_mn. apply Hf_anti, Hmn_le, Hm. }
  split.
  { intros i mi Hi Hmi. rewrite Hmn in Hmi. injection Hmi as <-.
    rewrite map_as_fmap, list_lookup_fmap, Hi. simpl. rewrite Hf_mn. reflexivity. }
  intros i j mi mj bi bj Hi Hj Hbi Hbj Hle.
  rewrite map_as_fmap, list_lookup_fmap, Hi in Hbi.
  rewrite map_as_fmap, list_lookup_fmap, Hj in Hbj.
  injection Hbi as <-. injection Hbj as <-. apply Hf_anti, Hle.
Qed.

(** C6 *)
(** Claim C6: when every magnitude of a (non-empty) column is the same,
    [get_scaled_brightness] raises nothing (the range is taken as 1) and
    every record gets brightness [MINIMUM_BRIGHTNESS]. *)
Theorem get_scaled_brightness_degenerate (magnitude : list R) (m0 : R) :
  magnitude <> [] -> (forall m, In m magnitude -> m = m0) ->
  get_scaled_brightness magnitude =
  Some (replicate (length magnitude) MINIMUM_BRIGHTNESS).
Proof.
  intros Hne Hall.
  destruct (np_min_exists magnitude Hne) as [mn Hmn].
  destruct (np_max_exists magnitude Hne) as [mx Hmx].
  assert (mn = m0) by (apply Hall, (proj1 (proj1 (np_min_spec _ _) Hmn))).
  assert (mx = m0) by (apply Hall, (proj1 (proj1 (np_max_spec _ _) Hmx))).
  subst mn mx.
  rewrite (get_scaled_brightness_eq _ m0 m0 Hmn Hmx). f_equal.
  destruct (Req_EM_T _ 0) as [_|Hne0]; [|exfalso; lra].
  transitivity (map (fun _ : R => MINIMUM_BRIGHTNESS) magnitude);
    [| clear; induction magnitude as [|m l IH]; simpl; [reflexivity | rewrite IH; reflexivity]].
  apply map_ext_in. intros m Hm. rewrite (Hall m Hm).
  replace ((- m0 / 2.5 - - m0 / 2.5) * ((1 - MINIMUM_BRIGHTNESS) / 1) + MINIMUM_BRIGHTNESS)
    with MINIMUM_BRIGHTNESS by lra.
  apply np_round5_min.
Qed.

(** ** The falloff kernel *)

Lemma np_ceil_IZR (z : Z) : np_ceil (IZR z) = z.
Proof. unfold np_ceil. rewrite <- opp_IZR, Int_part_IZR. lia. Qed.

Lemma np_ceil_nonneg (x : R) : 0 <= x -> (0 <= np_ceil x)%Z.
Proof.
  intros Hx. unfold np_ceil. pose proof (Int_part_bounds (- x)) as [Hb _].
  assert (IZR (Int_part (- x)) <= IZR 0) by (simpl; lra).
  apply le_IZR in H. lia.
Qed.

Lemma Int_part_small (x : R) : 0 <= x < 1 -> Int_part x = 0%Z.
Proof.
  intros Hx. unfold Int_part. rewrite <- (tech_up x 1); [reflexivity | simpl; lra | simpl; lra].
Qed.

Lemma py_int_small (x : R) : 0 <= x < 1 -> py_int x = 0%Z.
Proof.
  intros Hx. unfold py_int. destruct (Rle_dec 0 x); [apply Int_part_small; exact Hx | lra].
Qed.

Lemma py_int_IZR (z : Z) : (0 <= z)%Z -> py_int (IZR z) = z.
Proof.
  intros Hz. unfold py_int. destruct (Rle_dec 0 (IZR z)) as [_|Hn].
  - apply Int_part_IZR.
  - exfalso. apply Hn. apply IZR_le in Hz. exact Hz.
Qed.

(** The kernel built from [light_spread_stddev = 1]: radius [ceil(10 * 1) = 10]. *)
Lemma area_mesh_1 : area_mesh 1 = np_meshgrid (np_arange (-10) 11) (np_arange (-10) 11).
Proof.
  unfold area_mesh.
  replace (MAXIMUM_LIGHT_SPREAD * 1) with (IZR 10) by (unfold MAXIMUM_LIGHT_SPREAD; lra).
  rewrite np_ceil_IZR. reflexivity.
Qed.

(** Cell [[i][j]] of [brightness_scale_mesh] for a square mesh. *)
Lemma brightness_scale_mesh_lookup (sd : R) (xs : list Z) (i j : nat) (xi xj : Z) :
  area_mesh sd = np_meshgrid xs xs -> xs !! i = Some xi -> xs !! j = Some xj ->
  (brightness_scale_mesh sd !! i ≫= fun row => row !! j) =
  Some (py_int (brightness_gaussian sd (sqrt (IZR (xi ^ 2 + xj ^ 2))))).
Proof.
  intros Hm Hi Hj.
  unfold brightness_scale_mesh, radial_distance. rewrite Hm. unfold np_meshgrid. simpl.
  rewrite list_lookup_imap, map_as_fmap, list_lookup_fmap, Hi. simpl.
  rewrite list_lookup_imap, Hj. simpl.
  do 4 f_equal.
  rewrite !list_lookup_total_alt, lookup_zip_with, !list_lookup_fmap, Hj. simpl.
  rewrite lookup_zip_with, Hi, map_as_fmap, list_lookup_fmap, Hi. simpl. reflexivity.
Qed.

(** C3 *)
(** Claim C3 (evaluated on the code): for [light_spread_stddev = 1] the
    area mesh spans [[-10, 10]]; the point with offsets [(5, 0)] has radius 5
    and [brightness_gaussian 1 5 = exp (-25)], but [brightness_scale_mesh]
    stores 0 there (the float is truncated into the integer mesh); the
    centre holds 1. *)
Theorem brightness_scale_mesh_truncates :
  area_mesh 1 = np_meshgrid (np_arange (-10) 11) (np_arange (-10) 11) /\
  np_arange (-10) 11 !! 10%nat = Some 0%Z /\
  np_arange (-10) 11 !! 15%nat = Some 5%Z /\
  brightness_gaussian 1 (sqrt (IZR (5 ^ 2 + 0 ^ 2))) = exp (-25) /\
  (brightness_scale_mesh 1 !! 10%nat ≫= fun row => row !! 10%nat) = Some 1%Z /\
  (brightness_scale_mesh 1 !! 15%nat ≫= fun row => row !! 10%nat) = Some 0%Z /\
  exp (-25) <> 0.
Proof.
  assert (H10 : np_arange (-10) 11 !! 10%nat = Some 0%Z) by reflexivity.
  assert (H15 : np_arange (-10) 11 !! 15%nat = Some 5%Z) by reflexivity.
  assert (Hg5 : brightness_gaussian 1 (sqrt (IZR (5 ^ 2 + 0 ^ 2))) = exp (-25)).
  { unfold brightness_gaussian. replace (5 ^ 2 + 0 ^ 2)%Z with 25%Z by reflexivity.
    replace (IZR 25) with (5 * 5) by lra.
    rewrite sqrt_square by lra. f_equal. field. }
  pose proof (exp_pos (-25)) as Hpos.
  split; [exact area_mesh_1|].
  split; [exact H10|]. split; [exact H15|]. split; [exact Hg5|].
  split.
  - rewrite (brightness_scale_mesh_lookup 1 _ 10 10 0 0 area_mesh_1 H10 H10).
    unfold brightness_gaussian. replace (IZR (0 ^ 2 + 0 ^ 2)) with 0 by reflexivity.
    rewrite sqrt_0. replace (- 0 ^ 2 / 1 ^ 2) with 0 by field. rewrite exp_0.
    rewrite (py_int_IZR 1) by lia. reflexivity.
  - rewrite (brightness_scale_mesh_lookup 1 _ 15 10 5 0 area_mesh_1 H15 H10), Hg5.
    split; [f_equal; apply py_int_small; split; [lra|] | lra].
    rewrite <- exp_0. apply exp_increasing. lra.
Qed.

(** ** Seconds from midnight *)

(** C4 *)
(** Claim C4 (evaluated on the code): at 00:00:30 the seconds count used to
    index the magnitude lookup is 0, not 30, so the threshold read is entry
    0 of the lookup rather than entry 30. *)
Theorem get_timed_magnitude_ignores_seconds (mapping : list R) :
  get_seconds_from_midnight (mk_datetime 0 0 30 0) = 0 /\
  py_int (get_seconds_from_midnight (mk_datetime 0 0 30 0)) = 0%Z /\
  get_timed_magnitude mapping (mk_datetime 0 0 30 0) = mapping !! 0%nat.
Proof.
  assert (Hs : get_seconds_from_midnight (mk_datetime 0 0 30 0) = 0).
  { unfold get_seconds_from_midnight. simpl. lra. }
  assert (Hi : py_int (get_seconds_from_midnight (mk_datetime 0 0 30 0)) = 0%Z).
  { rewrite Hs. apply py_int_small. lra. }
  split; [exact Hs|]. split; [exact Hi|].
  unfold get_timed_magnitude. rewrite Hi. reflexivity.
Qed.

(** ** The dense magnitude lookup *)

Lemma np_linspace_length (start stop : R) (num : nat) :
  length (np_linspace start stop num) = num.
Proof.
  destruct num as [|[|n]]; [reflexivity | reflexivity|].
  change (length (map (fun k => INR k * ((stop - start) / INR (S n)) + start) (seq 0 (S n))
                  ++ [stop]) = S (S n)).
  rewrite length_app, List.length_map, length_seq. simpl. lia.
Qed.

Lemma np_interp_left (x : R) (xp fp xr yr : list R) (x0 y0 : R) :
  xp = x0 :: xr -> fp = y0 :: yr -> length xp = length fp -> x < x0 ->
  np_interp x xp fp = Some y0.
Proof.
  intros -> -> Hlen Hlt. unfold np_interp.
  rewrite decide_True by exact Hlen.
  destruct (Rlt_dec x x0); [reflexivity | contradiction].
Qed.

Lemma np_interp_right (x : R) (xp fp xr yr : list R) (x0 y0 : R) :
  xp = x0 :: xr -> fp = y0 :: yr -> length xp = length fp ->
  x0 <= x -> List.last xp x0 < x ->
  np_interp x xp fp = Some (List.last fp y0).
Proof.
  intros -> -> Hlen Hge Hlt. unfold np_interp.
  rewrite decide_True by exact Hlen.
  destruct (Rlt_dec x x0); [lra|].
  destruct (Rlt_dec (List.last (x0 :: xr) x0) x); [reflexivity | contradiction].
Qed.

Lemma np_interp_is_Some (x : R) (xp fp : list R) :
  xp <> [] -> length xp = length fp -> is_Some (np_interp x xp fp).
Proof.
  intros Hne Hlen. unfold np_interp.
  destruct xp as [|x0 xr]; [contradiction|].
  destruct fp as [|y0 yr]; [discriminate|].
  rewrite decide_True by exact Hlen.
  destruct (Rlt_dec _ _); [eexists; reflexivity|].
  destruct (Rlt_dec _ _); eexists; reflexivity.
Qed.

Lemma ssorted_head {A} (Rl : A -> A -> Prop) (a : A) (l : list A) (x : A) :
  StronglySorted Rl (a :: l) -> In x l -> Rl a x.
Proof.
  intros Hs Hx. apply StronglySorted_inv in Hs as [_ Hf].
  rewrite List.Forall_forall in Hf. exact (Hf x Hx).
Qed.

Lemma ssorted_app {A} (Rl : A -> A -> Prop) (l1 l2 : list A) (x y : A) :
  StronglySorted Rl (l1 ++ l2) -> In x l1 -> In y l2 -> Rl x y.
Proof.
  induction l1 as [|a l1 IH]; simpl; [tauto|].
  intros Hs [<-|Hx] Hy.
  - eapply ssorted_head; [exact Hs|]. apply in_or_app. right. exact Hy.
  - apply StronglySorted_inv in Hs as [Hs _]. exact (IH Hs Hx Hy).
Qed.

(** The value of the control point with the smallest hour, and the one with
    the largest, are [fp[0]] and [fp[-1]] when the hours increase. *)
Lemma magnitude_mapping_Some (mv : list R) (mti : list (R * nat)) (fp : list R) :
  mapM (fun '(_, index) => mv !! index) mti = Some fp ->
  magnitude_mapping mv mti =
  mapM (fun p => np_interp p (map (fun '(hr, _) => hr / 24) mti) fp)
       (np_linspace 0 1 (24 * 60 * 60)).
Proof. intros Hfp. unfold magnitude_mapping. rewrite Hfp. reflexivity. Qed.

(** C10 *)
(** Claim C10, amended: when the control points are listed in increasing
    hour order (numpy's precondition on [np.interp]; the dictionary's order
    is passed as is) but need not reach 0 or 24, building the dense
    magnitude lookup raises nothing, the lookup has 86,400 entries, and
    every grid point of the day left of the smallest hour (right of the
    largest) holds the value of the control point with the smallest
    (largest) hour: constant extension, no extrapolation. *)
Theorem magnitude_mapping_constant_extension (mv : list R) (mti : list (R * nat)) :
  mti <> [] ->
  (forall hr index, In (hr, index) mti -> (index < length mv)%nat) ->
  Sorted (fun a b : R * nat => a.1 < b.1) mti ->
  exists mapping,
    magnitude_mapping mv mti = Some mapping /\
    length mapping = (24 * 60 * 60)%nat /\
    forall k p h0 i0 v0,
      np_linspace 0 1 (24 * 60 * 60) !! k = Some p ->
      In (h0, i0) mti -> mv !! i0 = Some v0 ->
      ((forall hr index, In (hr, index) mti -> h0 <= hr) -> p < h0 / 24 ->
       mapping !! k = Some v0) /\
      ((forall hr index, In (hr, index) mti -> hr <= h0) -> h0 / 24 < p ->
       mapping !! k = Some v0).
Proof.
  intros Hne Hidx Hsort.
  apply Sorted_StronglySorted in Hsort; [|intros a b c; lra].
  assert (Hfp : is_Some (mapM (fun '(_, index) => mv !! index) mti)).
  { apply mapM_is_Some_2, Forall_forall. intros [hr index] Hin. simpl.
    apply lookup_lt_is_Some_2. eapply Hidx. apply list_elem_of_In. exact Hin. }
  destruct Hfp as [fp Hfp].
  pose proof (mapM_Some_1 _ _ _ Hfp) as Hfp2.
  set (xp := map (fun '(hr, _) => hr / 24) mti).
  assert (Hlen : length xp = length fp).
  { unfold xp. rewrite List.length_map. apply (length_mapM _ _ _ Hfp). }
  assert (Hxp : xp <> []) by (unfold xp; destruct mti; [contradiction | discriminate]).
  assert (Hmap : is_Some (mapM (fun p => np_interp p xp fp) (np_linspace 0 1 (24 * 60 * 60)))).
  { apply mapM_is_Some_2, Forall_forall. intros p _. apply np_interp_is_Some; assumption. }
  destruct Hmap as [mapping Hmap].
  exists mapping. rewrite (magnitude_mapping_Some _ _ _ Hfp). split; [exact Hmap|].
  split.
  { rewrite <- (length_mapM _ _ _ Hmap). apply np_linspace_length. }
  intros k p h0 i0 v0 Hk Hin Hv.
  destruct (Forall2_lookup_l _ _ _ _ _ (mapM_Some_1 _ _ _ Hmap) Hk) as (v & Hmk & Hv').
  rewrite Hmk.
  split.
  - intros Hmin Hlt.
    destruct mti as [|[h1 i1] rest]; [contradiction|].
    assert (Heq : (h0, i0) = (h1, i1)).
    { destruct Hin as [Hin|Hin]; [symmetry; exact Hin|].
      pose proof (ssorted_head _ _ _ _ Hsort Hin) as Hlt1. simpl in Hlt1.
      pose proof (Hmin h1 i1 (or_introl eq_refl)). lra. }
    injection Heq as -> ->.
    apply Forall2_cons_inv_l in Hfp2 as (f0 & fr & Hf0 & _ & ->).
    rewrite Hv in Hf0. injection Hf0 as <-.
    rewrite (np_interp_left p xp (v0 :: fr) (map (fun '(hr, _) => hr / 24) rest) fr
               (h1 / 24) v0) in Hv' by (reflexivity || assumption).
    symmetry. exact Hv'.
  - intros Hmax Hlt.
    destruct (exists_last Hne) as (pre & [hl il] & Hmti).
    assert (Heq : (h0, i0) = (hl, il)).
    { rewrite Hmti in Hin. apply in_app_or in Hin as [Hin|[Hin|[]]]; [|symmetry; exact Hin].
      rewrite Hmti in Hsort.
      pose proof (ssorted_app _ _ _ _ _ Hsort Hin (or_introl eq_refl)) as Hlt1. simpl in Hlt1.
      pose proof (Hmax hl il ltac:(rewrite Hmti; apply in_or_app; right; left; reflexivity)).
      lra. }
    injection Heq as -> ->.
    rewrite Hmti in Hfp2. apply Forall2_app_inv_l in Hfp2 as (fpre & fl & _ & Hfl & Hfpeq).
    apply Forall2_cons_inv_l in Hfl as (f1 & fnil & Hf1 & Hnil & ->).
    inversion Hnil; subst fnil.
    rewrite Hv in Hf1. injection Hf1 as <-.
    destruct mti as [|[h1 i1] rest]; [contradiction|].
    destruct fp as [|y0 yr]; [destruct fpre; discriminate|].
    assert (Hh1 : h1 <= hl) by exact (Hmax h1 i1 (or_introl eq_refl)).
    rewrite (np_interp_right p xp (y0 :: yr) (map (fun '(hr, _) => hr / 24) rest) yr
               (h1 / 24) y0) in Hv'; [| reflexivity | reflexivity | exact Hlen | lra |].
    + rewrite Hfpeq, List.last_last in Hv'. symmetry. exact Hv'.
    + unfold xp. rewrite Hmti, List.map_app. simpl map at 2. rewrite List.last_last. exact Hlt.
Qed.

(** ** Reading and writing pixels *)

Lemma channel_shape_lookup (n : nat) (ch : list (list R)) (i : nat) (col : list R) :
  channel_shape n ch -> ch !! i = Some col -> length col = n.
Proof. intros [_ Hf] Hi. rewrite Forall_lookup in Hf. exact (Hf _ _ Hi). Qed.

Lemma channel_set_lookup (n : nat) (ch : list (list R)) (i j i' j' : nat) (c : R) :
  channel_shape n ch -> (i < n)%nat -> (j < n)%nat -> (i' < n)%nat -> (j' < n)%nat ->
  (alter (fun column => <[j := c]> column) i ch !!! i') !!! j' =
  if decide (i = i' /\ j = j') then c else (ch !!! i') !!! j'.
Proof.
  intros Hs Hi Hj Hi' Hj'.
  pose proof Hs as [Hl _].
  destruct (lookup_lt_is_Some_2 ch i) as [col Hcol]; [lia|].
  rewrite list_lookup_total_alter.
  destruct (decide (i = i')) as [<-|Hne].
  - rewrite decide_True by lia.
    rewrite list_lookup_total_insert, (list_lookup_total_correct _ _ _ Hcol).
    rewrite (channel_shape_lookup n ch i col Hs Hcol).
    destruct (decide (j = j')) as [<-|Hjne].
    + rewrite !decide_True by lia. reflexivity.
    + rewrite !decide_False by lia. reflexivity.
  - rewrite !decide_False by lia. reflexivity.
Qed.

Lemma channel_set_shape (n : nat) (ch : list (list R)) (i j : nat) (c : R) :
  channel_shape n ch -> channel_shape n (alter (fun column => <[j := c]> column) i ch).
Proof.
  intros [Hl Hf]. split; [rewrite length_alter; exact Hl|].
  rewrite Forall_lookup in Hf.
  apply Forall_lookup. intros k col Hk. rewrite list_lookup_alter in Hk.
  destruct (decide (i = k)).
  - apply fmap_Some in Hk as (col0 & H0 & ->).
    rewrite length_insert. exact (Hf _ _ H0).
  - exact (Hf _ _ Hk).
Qed.

Lemma get_px_cons (ch : list (list R)) (fr : Frame) (x y : Z) :
  get_px (ch :: fr) x y = (ch !!! Z.to_nat x) !!! Z.to_nat y :: get_px fr x y.
Proof. reflexivity. Qed.

Lemma set_px_cons (ch : list (list R)) (fr : Frame) (c : R) (v : list R) (x y : Z) :
  set_px (ch :: fr) x y (c :: v) =
  alter (fun column => <[Z.to_nat y := c]> column) (Z.to_nat x) ch :: set_px fr x y v.
Proof. reflexivity. Qed.

Lemma set_px_spec (n : nat) (fr : Frame) (x y : Z) (v : list R) :
  Forall (channel_shape n) fr -> length v = length fr ->
  (0 <= x < Z.of_nat n)%Z -> (0 <= y < Z.of_nat n)%Z ->
  Forall (channel_shape n) (set_px fr x y v) /\ length (set_px fr x y v) = length fr /\
  forall x' y', (0 <= x' < Z.of_nat n)%Z -> (0 <= y' < Z.of_nat n)%Z ->
    get_px (set_px fr x y v) x' y' = if decide ((x, y) = (x', y')) then v else get_px fr x' y'.
Proof.
  intros Hf Hlen Hx Hy. revert v Hlen.
  induction Hf as [|ch fr Hch Hf IH]; intros [|c v] Hlen; simpl in Hlen; try discriminate.
  - split; [constructor|]. split; [reflexivity|]. intros. case_decide; reflexivity.
  - injection Hlen as Hlen. destruct (IH v Hlen) as (IH1 & IH2 & IH3).
    rewrite set_px_cons.
    split; [constructor; [apply channel_set_shape; exact Hch | exact IH1]|].
    split; [simpl; rewrite IH2; reflexivity|].
    intros x' y' Hx' Hy'.
    rewrite !get_px_cons, IH3 by assumption.
    rewrite (channel_set_lookup n ch) by (exact Hch || lia).
    destruct (decide ((x, y) = (x', y'))) as [Heq|Hne].
    + injection Heq as <- <-. rewrite decide_True by lia. reflexivity.
    + rewrite decide_False; [reflexivity|]. intros [H1 H2]. apply Hne. f_equal; lia.
Qed.

Lemma np_average2_convex (a b : list R) (w : R) :
  np_average2 a b w (1 - w) = convex_blend w a b.
Proof.
  unfold np_average2, convex_blend. apply zip_with_ext; [|reflexivity | reflexivity].
  intros u v. replace (w + (1 - w)) with 1 by ring. unfold Rdiv. rewrite Rinv_1. ring.
Qed.

Lemma frame_last_dim_shape (n : nat) (fr : Frame) : frame_shape n fr -> frame_last_dim fr = n.
Proof.
  intros [Hl Hf]. destruct fr as [|ch frs]; [discriminate|].
  unfold frame_last_dim. change ((ch :: frs) !!! 0%nat) with ch.
  apply Forall_cons_1 in Hf as [[Hlc Hcols] _].
  destruct ch as [|col cols]; simpl in Hlc.
  - subst n. reflexivity.
  - change ((col :: cols) !!! 0%nat) with col. apply Forall_cons_1 in Hcols as [Hc _]. exact Hc.
Qed.

Lemma pixel_in_frame_iff (x y n : Z) :
  pixel_in_frame x y n = true <-> (0 <= x < n)%Z /\ (0 <= y < n)%Z.
Proof. unfold pixel_in_frame. rewrite !andb_true_iff, !Z.leb_le, !Z.ltb_lt. tauto. Qed.

(** ** Compositing one object *)

(** One step of the loop: the pixel at the offset is blended when it lies in
    the frame, and nothing else changes. *)
Lemma add_object_step_spec (o : ObjRow) am (bsm : list (list R)) (n : nat) (fr : Frame)
    (ij : nat * nat) :
  frame_shape n fr -> length (obj_rgb o) = 3%nat ->
  frame_shape n (add_object_step o am bsm fr ij) /\
  forall px py, (0 <= px < Z.of_nat n)%Z -> (0 <= py < Z.of_nat n)%Z ->
    get_px (add_object_step o am bsm fr ij) px py =
    if decide (offset_xy o am ij = (px, py))
    then convex_blend ((bsm !!! ij.1) !!! ij.2 * obj_brightness o) (obj_rgb o) (get_px fr px py)
    else get_px fr px py.
Proof.
  intros Hs Hrgb. unfold add_object_step.
  destruct (offset_xy o am ij) as [fx fy] eqn:Hoff.
  rewrite (frame_last_dim_shape n fr Hs).
  destruct Hs as [Hl Hf].
  destruct (pixel_in_frame fx fy (Z.of_nat n)) eqn:Hin.
  - apply pixel_in_frame_iff in Hin as [Hfx Hfy].
    assert (Hlv : length (np_average2 (obj_rgb o) (get_px fr fx fy)
                    ((bsm !!! ij.1) !!! ij.2 * obj_brightness o)
                    (1 - (bsm !!! ij.1) !!! ij.2 * obj_brightness o)) = length fr).
    { unfold np_average2, get_px. rewrite length_zip_with, List.length_map. lia. }
    destruct (set_px_spec n fr fx fy _ Hf Hlv Hfx Hfy) as (S1 & S2 & S3).
    split; [split; [lia | exact S1]|].
    intros px py Hpx Hpy. rewrite S3 by assumption.
    destruct (decide ((fx, fy) = (px, py))) as [Heq|]; [|reflexivity].
    injection Heq as <- <-. apply np_average2_convex.
  - split; [split; assumption|].
    intros px py Hpx Hpy. rewrite decide_False; [reflexivity|].
    intros Heq. injection Heq as -> ->.
    assert (pixel_in_frame px py (Z.of_nat n) = true) by (apply pixel_in_frame_iff; lia).
    congruence.
Qed.

(** The loop over a list of mesh indices whose offsets are pairwise
    distinct: every in-frame target pixel is blended once, from its value
    before the loop; every other pixel is left alone. *)
Lemma add_object_steps_spec (o : ObjRow) am (bsm : list (list R)) (n : nat)
    (L : list (nat * nat)) (fr : Frame) :
  frame_shape n fr -> length (obj_rgb o) = 3%nat -> NoDup (map (offset_xy o am) L) ->
  frame_shape n (foldl (add_object_step o am bsm) fr L) /\
  forall px py, (0 <= px < Z.of_nat n)%Z -> (0 <= py < Z.of_nat n)%Z ->
    (forall ij, In ij L -> offset_xy o am ij = (px, py) ->
       get_px (foldl (add_object_step o am bsm) fr L) px py =
       convex_blend ((bsm !!! ij.1) !!! ij.2 * obj_brightness o) (obj_rgb o) (get_px fr px py)) /\
    ((forall ij, In ij L -> offset_xy o am ij <> (px, py)) ->
       get_px (foldl (add_object_step o am bsm) fr L) px py = get_px fr px py).
Proof.
  intros Hs Hrgb. revert fr Hs.
  induction L as [|ij L IH]; intros fr Hs Hnd; cbn [foldl map] in *.
  - split; [exact Hs|]. intros; split; [intros _ []| reflexivity].
  - apply NoDup_cons in Hnd as [Hnotin Hnd'].
    rewrite list_elem_of_In in Hnotin.
    destruct (add_object_step_spec o am bsm n fr ij Hs Hrgb) as [Hs1 Hpx1].
    destruct (IH _ Hs1 Hnd') as [Hs2 Hpx2].
    split; [exact Hs2|].
    intros px py Hx Hy. destruct (Hpx2 px py Hx Hy) as [Hin2 Hout2].
    split.
    + intros ij' [<-|Hij'] Heq.
      * rewrite Hout2.
        -- rewrite Hpx1 by assumption. rewrite decide_True by exact Heq. reflexivity.
        -- intros ij0 H0 Heq0. apply Hnotin. rewrite Heq, <- Heq0. apply in_map. exact H0.
      * rewrite (Hin2 ij' Hij' Heq), Hpx1 by assumption.
        rewrite decide_False; [reflexivity|]. intros Heq0. apply Hnotin.
        rewrite Heq0, <- Heq. apply in_map. exact Hij'.
    + intros Hnone. rewrite Hout2 by (intros ij0 H0; apply Hnone; right; exact H0).
      rewrite Hpx1 by assumption. rewrite decide_False; [reflexivity|].
      apply Hnone. left. reflexivity.
Qed.

(** ** The mesh indices and their offsets *)

Lemma concat_fmap_bind {A B} (f : A -> list B) (l : list A) : concat (f <$> l) = l ≫= f.
Proof. induction l as [|x l IH]; [reflexivity|]. csimpl. rewrite IH. reflexivity. Qed.

Lemma ndindex_meshgrid {A B} (xs : list A) (ys : list B) :
  ndindex (map (fun _ => xs) ys) =
  seq 0 (length ys) ≫= (fun i => (fun j => (i, j)) <$> seq 0 (length xs)).
Proof.
  unfold ndindex. rewrite map_as_fmap, imap_fmap.
  rewrite (imap_ext _ (fun i _ => (fun j => (i, j)) <$> seq 0 (length xs))).
  2:{ intros i y _. simpl. apply (imap_seq_0 xs (fun j => (i, j))). }
  rewrite (imap_seq_0 ys (fun i => (fun j => (i, j)) <$> seq 0 (length xs))).
  apply concat_fmap_bind.
Qed.

Lemma elem_of_ndindex_meshgrid (xs ys : list Z) (i j : nat) :
  (i, j) ∈ ndindex (np_meshgrid xs ys).1 <-> (i < length ys)%nat /\ (j < length xs)%nat.
Proof.
  change ((np_meshgrid xs ys).1) with (map (fun _ : Z => xs) ys).
  rewrite ndindex_meshgrid, list_elem_of_bind. split.
  - intros (i0 & Hin & Hi0). apply list_elem_of_fmap in Hin as (j0 & Heq & Hj0).
    injection Heq as -> ->. apply elem_of_seq in Hi0, Hj0. lia.
  - intros [Hi Hj]. exists i. split; [|apply elem_of_seq; lia].
    apply list_elem_of_fmap. exists j. split; [reflexivity | apply elem_of_seq; lia].
Qed.

Lemma meshgrid_lookup (xs ys : list Z) (i j : nat) (dx dy : Z) :
  (((np_meshgrid xs ys).1 !! i ≫= fun row => row !! j) = Some dx /\
   ((np_meshgrid xs ys).2 !! i ≫= fun row => row !! j) = Some dy) <->
  xs !! j = Some dx /\ ys !! i = Some dy.
Proof.
  unfold np_meshgrid; simpl. rewrite !map_as_fmap, !list_lookup_fmap.
  destruct (ys !! i) as [yv|] eqn:Hy; simpl.
  - rewrite map_as_fmap, list_lookup_fmap.
    destruct (xs !! j) as [xv|]; simpl; split; intros [H1 H2]; try discriminate;
      injection H1 as ->; injection H2 as ->; split; reflexivity.
  - split; intros [H1 H2]; discriminate.
Qed.

Lemma offset_xy_meshgrid (o : ObjRow) (xs ys : list Z) (i j : nat) (xv yv : Z) :
  xs !! j = Some xv -> ys !! i = Some yv ->
  offset_xy o (np_meshgrid xs ys) (i, j) = ((xv + obj_x o)%Z, (yv + obj_y o)%Z).
Proof.
  intros Hx Hy. unfold offset_xy, np_meshgrid; simpl.
  rewrite !list_lookup_total_alt, !map_as_fmap, !list_lookup_fmap, Hy. simpl.
  rewrite map_as_fmap, list_lookup_fmap, Hx. simpl. reflexivity.
Qed.

Lemma meshgrid_offsets_NoDup (o : ObjRow) (xs ys : list Z) :
  NoDup xs -> NoDup ys ->
  NoDup (map (offset_xy o (np_meshgrid xs ys)) (ndindex (np_meshgrid xs ys).1)).
Proof.
  intros Hx Hy. rewrite map_as_fmap. apply NoDup_fmap_2_strong.
  - intros [i j] [i' j'] Hin Hin' Heq.
    apply elem_of_ndindex_meshgrid in Hin as [Hi Hj].
    apply elem_of_ndindex_meshgrid in Hin' as [Hi' Hj'].
    destruct (lookup_lt_is_Some_2 xs j Hj) as [xv Hxv].
    destruct (lookup_lt_is_Some_2 ys i Hi) as [yv Hyv].
    destruct (lookup_lt_is_Some_2 xs j' Hj') as [xv' Hxv'].
    destruct (lookup_lt_is_Some_2 ys i' Hi') as [yv' Hyv'].
    rewrite (offset_xy_meshgrid o xs ys i j xv yv Hxv Hyv),
      (offset_xy_meshgrid o xs ys i' j' xv' yv' Hxv' Hyv') in Heq.
    injection Heq as E1 E2.
    assert (xv' = xv) by lia. assert (yv' = yv) by lia. subst xv' yv'.
    f_equal; [exact (NoDup_lookup ys i i' yv Hy Hyv Hyv') | exact (NoDup_lookup xs j j' xv Hx Hxv Hxv')].
  - change ((np_meshgrid xs ys).1) with (map (fun _ : Z => xs) ys).
    rewrite ndindex_meshgrid. apply NoDup_bind.
    + intros i1 i2 [a b] _ _ Hb1 Hb2.
      apply list_elem_of_fmap in Hb1 as (? & E1 & _).
      apply list_elem_of_fmap in Hb2 as (? & E2 & _). congruence.
    + intros i _. apply NoDup_fmap_2_strong; [intros j j' _ _ E; congruence | apply NoDup_seq].
    + apply NoDup_seq.
Qed.

Lemma np_arange_NoDup (start stop : Z) : NoDup (np_arange start stop).
Proof.
  unfold np_arange. rewrite map_as_fmap.
  apply NoDup_fmap_2_strong; [intros k k' _ _ E; lia | apply NoDup_seq].
Qed.

(** The kernel's mesh is the square meshgrid of a duplicate-free vector. *)
Lemma area_mesh_square (sd : R) :
  exists xs, area_mesh sd = np_meshgrid xs xs /\ NoDup xs.
Proof. eexists. split; [reflexivity | apply np_arange_NoDup]. Qed.

(** The pixel an offset of the kernel [area_mesh sd] lands on, when it
    lies in the frame, is the blend of its value before the call. *)
Lemma add_object_to_frame_target (object_row : ObjRow) (frame : Frame) (sd : R)
    (brightness_scale_mesh : list (list R)) (n : nat) (i j : nat) (dx dy : Z) :
  frame_shape n frame -> length (obj_rgb object_row) = 3%nat ->
  ((area_mesh sd).1 !! i ≫= fun row => row !! j) = Some dx ->
  ((area_mesh sd).2 !! i ≫= fun row => row !! j) = Some dy ->
  (0 <= obj_x object_row + dx < Z.of_nat n)%Z ->
  (0 <= obj_y object_row + dy < Z.of_nat n)%Z ->
  get_px (add_object_to_frame object_row frame (area_mesh sd) brightness_scale_mesh)
         (obj_x object_row + dx) (obj_y object_row + dy) =
  convex_blend ((brightness_scale_mesh !!! i) !!! j * obj_brightness object_row)
               (obj_rgb object_row)
               (get_px frame (obj_x object_row + dx) (obj_y object_row + dy)).
Proof.
  intros Hs Hrgb H1 H2 Hx Hy.
  destruct (area_mesh_square sd) as (xs & Hm & Hnd).
  unfold add_object_to_frame. rewrite Hm in *.
  destruct (add_object_steps_spec object_row (np_meshgrid xs xs) brightness_scale_mesh n
              (ndindex (np_meshgrid xs xs).1) frame Hs Hrgb
              (meshgrid_offsets_NoDup object_row xs xs Hnd Hnd)) as [_ Hpx].
  destruct (proj1 (meshgrid_lookup xs xs i j dx dy) (conj H1 H2)) as [Hj Hi].
  apply (proj1 (Hpx _ _ Hx Hy) (i, j)).
  - apply list_elem_of_In, elem_of_ndindex_meshgrid.
    split; eapply lookup_lt_Some; eassumption.
  - rewrite (offset_xy_meshgrid object_row xs xs i j dx dy Hj Hi). f_equal; lia.
Qed.

(** C1 *)
(** Claim C1: compositing an object into a [(3, n, n)] frame keeps the
    frame's shape; for every offset [(dx, dy)] of the falloff kernel (mesh
    cell [[i][j]]) whose absolute pixel [(x + dx, y + dy)] lies in
    [[0, n)] on both axes, that pixel becomes the convex combination
    [weight * rgb + (1 - weight) * old] with [weight = kernel[i][j] *
    brightness] of its value before; any in-frame pixel that no offset
    reaches is unchanged (out-of-frame offsets are skipped: no wraparound,
    no clamping, no error). *)
Theorem add_object_to_frame_blend (object_row : ObjRow) (frame : Frame) (sd : R)
    (brightness_scale_mesh : list (list R)) (n : nat) :
  frame_shape n frame -> length (obj_rgb object_row) = 3%nat ->
  frame_shape n (add_object_to_frame object_row frame (area_mesh sd) brightness_scale_mesh) /\
  (forall (i j : nat) (dx dy : Z),
     ((area_mesh sd).1 !! i ≫= fun row => row !! j) = Some dx ->
     ((area_mesh sd).2 !! i ≫= fun row => row !! j) = Some dy ->
     (0 <= obj_x object_row + dx < Z.of_nat n)%Z ->
     (0 <= obj_y object_row + dy < Z.of_nat n)%Z ->
     get_px (add_object_to_frame object_row frame (area_mesh sd) brightness_scale_mesh)
            (obj_x object_row + dx) (obj_y object_row + dy) =
     convex_blend ((brightness_scale_mesh !!! i) !!! j * obj_brightness object_row)
                  (obj_rgb object_row)
                  (get_px frame (obj_x object_row + dx) (obj_y object_row + dy))) /\
  (forall px py : Z,
     (0 <= px < Z.of_nat n)%Z -> (0 <= py < Z.of_nat n)%Z ->
     (forall (i j : nat) (dx dy : Z),
        ((area_mesh sd).1 !! i ≫= fun row => row !! j) = Some dx ->
        ((area_mesh sd).2 !! i ≫= fun row => row !! j) = Some dy ->
        (obj_x object_row + dx, obj_y object_row + dy)%Z <> (px, py)) ->
     get_px (add_object_to_frame object_row frame (area_mesh sd) brightness_scale_mesh) px py =
     get_px frame px py).
Proof.
  intros Hs Hrgb.
  destruct (area_mesh_square sd) as (xs & Hm & Hnd).
  unfold add_object_to_frame. rewrite Hm.
  destruct (add_object_steps_spec object_row (np_meshgrid xs xs) brightness_scale_mesh n
              (ndindex (np_meshgrid xs xs).1) frame Hs Hrgb
              (meshgrid_offsets_NoDup object_row xs xs Hnd Hnd)) as [Hs' Hpx].
  split; [exact Hs'|]. split.
  - intros i j dx dy H1 H2 Hx Hy.
    destruct (proj1 (meshgrid_lookup xs xs i j dx dy) (conj H1 H2)) as [Hj Hi].
    apply (proj1 (Hpx _ _ Hx Hy) (i, j)).
    + apply list_elem_of_In, elem_of_ndindex_meshgrid.
      split; eapply lookup_lt_Some; eassumption.
    + rewrite (offset_xy_meshgrid object_row xs xs i j dx dy Hj Hi). f_equal; lia.
  - intros px py Hx Hy Hnone. apply (proj2 (Hpx _ _ Hx Hy)).
    intros [i j] Hin Heq.
    apply list_elem_of_In, elem_of_ndindex_meshgrid in Hin as [Hi Hj].
    destruct (lookup_lt_is_Some_2 xs j Hj) as [xv Hxv].
    destruct (lookup_lt_is_Some_2 xs i Hi) as [yv Hyv].
    destruct (proj2 (meshgrid_lookup xs xs i j xv yv) (conj Hxv Hyv)) as [H1 H2].
    apply (Hnone i j xv yv H1 H2).
    rewrite (offset_xy_meshgrid object_row xs xs i j xv yv Hxv Hyv) in Heq.
    rewrite <- Heq. f_equal; lia.
Qed.

(** ** The channel sum at the object's pixel *)

Lemma rgb_sum_convex_blend (w : R) (a b : list R) :
  length a = length b -> rgb_sum (convex_blend w a b) = w * rgb_sum a + (1 - w) * rgb_sum b.
Proof.
  revert b. induction a as [|x a IH]; intros [|y b] Hlen; simpl in Hlen; try discriminate.
  - unfold convex_blend, rgb_sum. simpl. ring.
  - injection Hlen as Hlen. unfold convex_blend in *. unfold rgb_sum in *. simpl.
    rewrite IH by exact Hlen. ring.
Qed.

Lemma length_get_px (fr : Frame) (x y : Z) : length (get_px fr x y) = length fr.
Proof. unfold get_px. apply List.length_map. Qed.

(** A cell of the integer kernel, read through [map (map float)]. *)
Lemma weights_lookup (m : list (list Z)) (i j : nat) (z : Z) :
  (m !! i ≫= fun row => row !! j) = Some z -> (map (map IZR) m !!! i) !!! j = IZR z.
Proof.
  intros H. destruct (m !! i) as [row|] eqn:Hi; simpl in H; [|discriminate].
  rewrite !list_lookup_total_alt, map_as_fmap, list_lookup_fmap, Hi. simpl.
  rewrite map_as_fmap, list_lookup_fmap, H. reflexivity.
Qed.

(** The kernel built from [light_spread_stddev = 0.1]: radius [ceil(10 * 0.1) = 1]. *)
Lemma area_mesh_tenth : area_mesh (1 / 10) = np_meshgrid (np_arange (-1) 2) (np_arange (-1) 2).
Proof.
  unfold area_mesh.
  replace (MAXIMUM_LIGHT_SPREAD * (1 / 10)) with (IZR 1) by (unfold MAXIMUM_LIGHT_SPREAD; field).
  rewrite np_ceil_IZR. reflexivity.
Qed.

Lemma brightness_scale_mesh_tenth_centre :
  (brightness_scale_mesh (1 / 10) !! 1%nat ≫= fun row => row !! 1%nat) = Some 1%Z.
Proof.
  rewrite (brightness_scale_mesh_lookup (1 / 10) _ 1 1 0 0 area_mesh_tenth eq_refl eq_refl).
  unfold brightness_gaussian. replace (IZR (0 ^ 2 + 0 ^ 2)) with 0 by reflexivity.
  rewrite sqrt_0. replace (- 0 ^ 2 / (1 / 10) ^ 2) with 0 by field. rewrite exp_0.
  rewrite (py_int_IZR 1) by lia. reflexivity.
Qed.

(** C9 *)
(** Counterexample to claim C9: a one-pixel frame pre-filled with white
    (channel sum 3), a red object of brightness 1/2 at that pixel, kernel of
    [light_spread_stddev = 0.1] with the weights [fill_frame_objects] passes
    (centre weight 1): the pixel becomes [(1, 0.5, 0.5)], channel sum 2. *)
Lemma add_object_to_frame_white_background :
  let frame := fill_frame_background [1; 1; 1] [[[0]]; [[0]]; [[0]]] in
  let object_row := mk_obj 0 0 (1 / 2) [1; 0; 0] in
  let weights := map (map IZR) (brightness_scale_mesh (1 / 10)) in
  rgb_sum (obj_rgb object_row) > 0 /\ obj_brightness object_row > 0 /\
  rgb_sum (get_px frame 0 0) = 3 /\
  rgb_sum (get_px (add_object_to_frame object_row frame (area_mesh (1 / 10)) weights) 0 0) = 2.
Proof.
  intros frame object_row weights.
  assert (Hs : frame_shape 1 frame).
  { split; [reflexivity|]. repeat constructor. }
  assert (Hpx : get_px frame 0 0 = [1; 1; 1]) by reflexivity.
  unfold add_object_to_frame. rewrite area_mesh_tenth.
  destruct (add_object_steps_spec object_row (np_meshgrid (np_arange (-1) 2) (np_arange (-1) 2))
              weights 1 (ndindex (np_meshgrid (np_arange (-1) 2) (np_arange (-1) 2)).1) frame
              Hs eq_refl (meshgrid_offsets_NoDup _ _ _ (np_arange_NoDup _ _) (np_arange_NoDup _ _)))
    as [_ Hpix].
  destruct (Hpix 0%Z 0%Z ltac:(lia) ltac:(lia)) as [Hin _].
  rewrite (Hin (1, 1)%nat ltac:(simpl; tauto) eq_refl).
  unfold weights. simpl fst; simpl snd.
  rewrite (weights_lookup _ 1 1 1 brightness_scale_mesh_tenth_centre), Hpx.
  unfold rgb_sum, convex_blend, object_row. simpl. split; [lra|]. split; lra.
Qed.

(** Claim C9, as the code behaves: the blend is convex, so the channel sum
    at the object's pixel moves towards the object colour's sum,
    [new = old + weight * (sum rgb - old)] with [weight] the kernel's centre
    cell times the brightness; with a positive weight it strictly increases
    exactly when the object colour's sum exceeds the pre-fill sum (as for a
    non-black object on the black background of the repository's test). *)
Theorem add_object_to_frame_centre_sum (object_row : ObjRow) (frame : Frame) (sd : R)
    (brightness_scale_mesh : list (list R)) (n : nat) (i j : nat) :
  frame_shape n frame -> length (obj_rgb object_row) = 3%nat ->
  (0 <= obj_x object_row < Z.of_nat n)%Z -> (0 <= obj_y object_row < Z.of_nat n)%Z ->
  ((area_mesh sd).1 !! i ≫= fun row => row !! j) = Some 0%Z ->
  ((area_mesh sd).2 !! i ≫= fun row => row !! j) = Some 0%Z ->
  let weight := (brightness_scale_mesh !!! i) !!! j * obj_brightness object_row in
  let old := rgb_sum (get_px frame (obj_x object_row) (obj_y object_row)) in
  let new := rgb_sum (get_px (add_object_to_frame object_row frame (area_mesh sd)
                                brightness_scale_mesh) (obj_x object_row) (obj_y object_row)) in
  new = old + weight * (rgb_sum (obj_rgb object_row) - old) /\
  (0 < weight -> (old < new <-> old < rgb_sum (obj_rgb object_row))).
Proof.
  intros Hs Hrgb Hx Hy H1 H2 weight old new.
  pose proof (add_object_to_frame_target object_row frame sd brightness_scale_mesh n i j 0 0
                Hs Hrgb H1 H2) as Hb.
  rewrite !Z.add_0_r in Hb. specialize (Hb Hx Hy).
  assert (Hnew : new = weight * rgb_sum (obj_rgb object_row) + (1 - weight) * old).
  { unfold new, old. rewrite Hb. apply rgb_sum_convex_blend.
    rewrite length_get_px, Hrgb. symmetry. apply (proj1 Hs). }
  split; [rewrite Hnew; ring|].
  intros Hw. rewrite Hnew. split; intros H.
  - apply Rmult_lt_reg_l with weight; [exact Hw | lra].
  - assert (0 < weight * (rgb_sum (obj_rgb object_row) - old)) by (apply Rmult_lt_0_compat; lra).
    lra.
Qed.

Lemma add_object_to_frame_centre_sum_witness :
  frame_shape 1 [[[0]]; [[0]]; [[0]]] /\
  ((area_mesh (1 / 10)).1 !! 1%nat ≫= fun row => row !! 1%nat) = Some 0%Z /\
  ((area_mesh (1 / 10)).2 !! 1%nat ≫= fun row => row !! 1%nat) = Some 0%Z /\
  rgb_sum (get_px (add_object_to_frame (mk_obj 0 0 1 [1; 1; 1]) [[[0]]; [[0]]; [[0]]]
                     (area_mesh (1 / 10)) [[0; 0; 0]; [0; 1; 0]; [0; 0; 0]]) 0 0) =
  0 + 1 * 1 * (3 - 0).
Proof.
  assert (Hs : frame_shape 1 [[[0]]; [[0]]; [[0]]]) by (split; [reflexivity | repeat constructor]).
  assert (H1 : ((area_mesh (1 / 10)).1 !! 1%nat ≫= fun row => row !! 1%nat) = Some 0%Z)
    by (rewrite area_mesh_tenth; reflexivity).
  assert (H2 : ((area_mesh (1 / 10)).2 !! 1%nat ≫= fun row => row !! 1%nat) = Some 0%Z)
    by (rewrite area_mesh_tenth; reflexivity).
  split; [exact Hs|]. split; [exact H1|]. split; [exact H2|].
  destruct (add_object_to_frame_centre_sum (mk_obj 0 0 1 [1; 1; 1]) [[[0]]; [[0]]; [[0]]]
              (1 / 10) [[0; 0; 0]; [0; 1; 0]; [0; 0; 0]] 1 1 1 Hs eq_refl
              ltac:(simpl; lia) ltac:(simpl; lia) H1 H2) as [Heq _].
  cbn [obj_x obj_y obj_rgb obj_brightness] in Heq. rewrite Heq.
  unfold rgb_sum, get_px. simpl. lra.
Defined.

(** ** Instances of the hypotheses *)

Lemma add_object_to_frame_blend_witness :
  frame_shape 1 [[[0]]; [[0]]; [[0]]] /\ length (obj_rgb (mk_obj 0 0 1 [1; 1; 1])) = 3%nat /\
  frame_shape 1 (add_object_to_frame (mk_obj 0 0 1 [1; 1; 1]) [[[0]]; [[0]]; [[0]]]
                   (area_mesh 1) [[1]]).
Proof.
  assert (Hs : frame_shape 1 [[[0]]; [[0]]; [[0]]]) by (split; [reflexivity | repeat constructor]).
  split; [exact Hs|]. split; [reflexivity|].
  exact (proj1 (add_object_to_frame_blend (mk_obj 0 0 1 [1; 1; 1]) _ 1 [[1]] 1 Hs eq_refl)).
Defined.

Lemma get_scaled_brightness_min_max_witness :
  (exists a b, In a [1; 2] /\ In b [1; 2] /\ a <> b) /\
  exists brightness, get_scaled_brightness [1; 2] = Some brightness /\ np_max brightness = Some 1.
Proof.
  assert (H : exists a b, In a [1; 2] /\ In b [1; 2] /\ a <> b).
  { exists 1, 2. split; [left; reflexivity|]. split; [right; left; reflexivity | lra]. }
  split; [exact H|].
  destruct (get_scaled_brightness_min_max [1; 2] H) as (b & Hb & _ & _ & Hmax & _).
  exists b. split; assumption.
Defined.

Lemma get_scaled_brightness_degenerate_witness :
  ([5; 5] : list R) <> [] /\ (forall m, In m [5; 5] -> m = 5) /\
  get_scaled_brightness [5; 5] = Some (replicate 2 MINIMUM_BRIGHTNESS).
Proof.
  assert (H1 : ([5; 5] : list R) <> []) by discriminate.
  assert (H2 : forall m, In m [5; 5] -> m = 5) by (intros m [<-|[<-|[]]]; reflexivity).
  split; [exact H1|]. split; [exact H2|].
  exact (get_scaled_brightness_degenerate [5; 5] 5 H1 H2).
Defined.

Lemma magnitude_mapping_constant_extension_witness :
  [(6, 0%nat); (18, 1%nat)] <> [] /\
  (forall hr index, In (hr, index) [(6, 0%nat); (18, 1%nat)] -> (index < length [5; 3])%nat) /\
  Sorted (fun a b : R * nat => a.1 < b.1) [(6, 0%nat); (18, 1%nat)] /\
  exists mapping, magnitude_mapping [5; 3] [(6, 0%nat); (18, 1%nat)] = Some mapping /\
                  length mapping = (24 * 60 * 60)%nat.
Proof.
  assert (H1 : [(6, 0%nat); (18, 1%nat)] <> []) by discriminate.
  assert (H2 : forall hr index, In (hr, index) [(6, 0%nat); (18, 1%nat)] ->
                                (index < length [5; 3])%nat).
  { intros hr index [H|[H|[]]]; injection H as <- <-; simpl; lia. }
  assert (H3 : Sorted (fun a b : R * nat => a.1 < b.1) [(6, 0%nat); (18, 1%nat)]).
  { repeat constructor. simpl. lra. }
  split; [exact H1|]. split; [exact H2|]. split; [exact H3|].
  destruct (magnitude_mapping_constant_extension [5; 3] _ H1 H2 H3) as (mapping & Hm & Hl & _).
  exists mapping. split; assumption.
Defined.

Lemma np_linspace_head (start stop : R) (num : nat) :
  (2 <= num)%nat -> np_linspace start stop num !! 0%nat = Some start.
Proof.
  intros Hn. destruct num as [|[|d]]; [lia | lia |].
  unfold np_linspace. cbn [seq map app lookup list_lookup].
  f_equal. simpl. ring.
Qed.

(** Counterexample to claim C10 as stated: the control points come from a
    dictionary whose order the user's file sets, and [np.interp] gets them
    unsorted.  With [magnitude_time_indices = {18: 0, 6: 1}] and
    [magnitude_values = [5, 3]] the covered hours are [[6, 18]]; second 0
    (grid point 0) lies left of them, and the nearest endpoint (hour 6) has
    value 3, but the lookup holds 5, the value listed first (hour 18). *)
Lemma magnitude_mapping_unsorted_hours :
  exists mapping,
    magnitude_mapping [5; 3] [(18, 0%nat); (6, 1%nat)] = Some mapping /\
    np_linspace 0 1 (24 * 60 * 60) !! 0%nat = Some 0 /\
    0 < 6 / 24 < 18 / 24 /\ [5; 3] !! 1%nat = Some 3 /\
    mapping !! 0%nat = Some 5.
Proof.
  assert (Hfp : mapM (fun '(_, index) => [5; 3] !! index)
                  [(18, 0%nat); (6, 1%nat)] = Some [5; 3]) by reflexivity.
  rewrite (magnitude_mapping_Some _ _ _ Hfp).
  change (map (fun '(hr, _) => hr / 24) [(18, 0%nat); (6, 1%nat)]) with [18 / 24; 6 / 24].
  assert (Hmap : is_Some (mapM (fun p => np_interp p [18 / 24; 6 / 24] [5; 3])
                                (np_linspace 0 1 (24 * 60 * 60)))).
  { apply mapM_is_Some_2, Forall_forall. intros p _.
    apply np_interp_is_Some; [discriminate | reflexivity]. }
  destruct Hmap as [mapping Hmap].
  assert (H0 : np_linspace 0 1 (24 * 60 * 60) !! 0%nat = Some 0).
  { apply np_linspace_head. apply Nat.leb_le. vm_compute. reflexivity. }
  exists mapping. split; [exact Hmap|]. split; [exact H0|].
  split; [lra|]. split; [reflexivity|].
  destruct (Forall2_lookup_l _ _ _ _ _ (mapM_Some_1 _ _ _ Hmap) H0) as (v & Hv & Hi).
  rewrite Hv. unfold np_interp in Hi.
  rewrite decide_True in Hi by reflexivity.
  destruct (Rlt_dec 0 (18 / 24)) as [_|Hn]; [|lra].
  congruence.
Qed.

(** ** Re-assembling the frames *)

Lemma reinsert_frames_cons (i : nat) (fr : Frame) (l : list (nat * Frame)) (img : list Frame) :
  reinsert_frames ((i, fr) :: l) img = reinsert_frames l (<[i := fr]> img).
Proof. reflexivity. Qed.

(** Inserting frames at pairwise distinct indices does not depend on the
    order of the insertions. *)
Lemma reinsert_frames_perm (l1 l2 : list (nat * Frame)) (img : list Frame) :
  l1 ≡ₚ l2 -> List.NoDup (map fst l1) -> reinsert_frames l1 img = reinsert_frames l2 img.
Proof.
  intros Hp. revert img.
  induction Hp as [|[i f] l1 l2 Hp IH|[i f] [j g] l|l1 l2 l3 Hp1 IH1 Hp2 IH2]; intros img Hnd.
  - reflexivity.
  - rewrite !reinsert_frames_cons. apply IH. simpl in Hnd. inversion Hnd; assumption.
  - rewrite !reinsert_frames_cons. f_equal.
    simpl in Hnd. inversion Hnd as [|? ? Hni _]; subst.
    apply list_insert_insert_ne. intros ->. apply Hni. left. reflexivity.
  - rewrite (IH1 img Hnd). apply IH2.
    eapply Permutation_NoDup; [apply Permutation_map; exact Hp1 | exact Hnd].
Qed.

Lemma map_fst_pairs {A B} (f : A -> B) (l : list A) : map fst (map (fun i => (i, f i)) l) = l.
Proof. induction l as [|x l IH]; simpl; [reflexivity | rewrite IH; reflexivity]. Qed.

Section Reassembly.

Variable colour_mapping : R -> list R.
Variable world_to_pixel : nat -> R -> R -> R * R.
Variable separation : R * R -> R * R -> R.

Lemma run_frame_tasks (s : ImageSettings) (img : list Frame) (tables : list (list PrepRow))
    (L : list nat) :
  run_tasks world_to_pixel s
    (filter (fun '(_, _, t) => negb (Nat.eqb (length t) 0))
            (map (fun i => (i, img !!! i, tables !!! i)) L)) =
  map (fun i => (i, (fill_frame_objects world_to_pixel s i (img !!! i) (tables !!! i)).2))
      (filter (fun i => negb (Nat.eqb (length (tables !!! i)) 0)) L).
Proof.
  induction L as [|i L IH]; [reflexivity|]. cbn [map]. rewrite !filter_cons.
  destruct (decide (Is_true (negb (Nat.eqb (length (tables !!! i)) 0)))) as [Hp|Hp].
  - unfold run_tasks in *. cbn [map]. rewrite IH. reflexivity.
  - exact IH.
Qed.

Lemma fill_frame_objects_nil (s : ImageSettings) (i : nat) (fr : Frame) :
  (fill_frame_objects world_to_pixel s i fr []).2 = fr.
Proof. reflexivity. Qed.

(** Compositing in place, in index order, touches each frame once, from the
    frame as it was; a frame with an empty table is left as it is. *)
Lemma fill_sequential_reinsert (s : ImageSettings) (tables : list (list PrepRow))
    (img : list Frame) (L : list nat) (img_cur : list Frame) :
  List.NoDup L -> (forall i, In i L -> img_cur !!! i = img !!! i) ->
  foldl (fun img' i =>
           <[i := (fill_frame_objects world_to_pixel s i (img' !!! i) (tables !!! i)).2]> img')
        img_cur L =
  reinsert_frames
    (map (fun i => (i, (fill_frame_objects world_to_pixel s i (img !!! i) (tables !!! i)).2))
         (filter (fun i => negb (Nat.eqb (length (tables !!! i)) 0)) L)) img_cur.
Proof.
  revert img_cur. induction L as [|i L IH]; intros img_cur Hnd Hag; [reflexivity|].
  inversion Hnd as [|? ? Hni Hnd']; subst.
  cbn [foldl]. rewrite (Hag i (or_introl eq_refl)). rewrite filter_cons.
  case_decide as Hp.
  - cbn [map]. rewrite reinsert_frames_cons. apply IH; [exact Hnd'|].
    intros j Hj. rewrite list_lookup_total_insert_ne by (intros ->; contradiction).
    apply Hag. right. exact Hj.
  - assert (Ht : tables !!! i = []).
    { destruct (tables !!! i) as [|r rs] eqn:Ht0; [reflexivity|].
      exfalso. apply Hp. exact I. }
    rewrite Ht, fill_frame_objects_nil.
    rewrite <- (Hag i (or_introl eq_refl)), list_insert_id'.
    + apply IH; [exact Hnd'|]. intros j Hj. apply Hag. right. exact Hj.
    + intros Hlt. apply list_lookup_lookup_total_lt. exact Hlt.
Qed.

(** C7 *)
(** Claim C7: with a deterministic worker ([fill_frame_objects]), re-inserting
    the returned [(index, frame)] pairs by their index, in any completion
    order, gives the matrix obtained by compositing every frame in place
    one after the other in frame order; in particular the matrix
    [create_image_matrix] returns is the sequential one, with its axes moved
    and flipped. *)
Theorem create_image_matrix_reassembly (s : ImageSettings)
    (planet_tables : list (list CatRow)) (star_table : list CatRow) :
  (forall (image_matrix : list Frame) (object_tables : list (list PrepRow))
          (results : list (nat * Frame)),
     results ≡ₚ run_tasks world_to_pixel s (frame_tasks s image_matrix object_tables) ->
     reinsert_frames results image_matrix =
     fill_frames_sequentially world_to_pixel s object_tables image_matrix) /\
  (forall M,
     create_image_matrix colour_mapping world_to_pixel separation s planet_tables star_table
       = Some M ->
     exists image_matrix object_tables,
       fill_backgrounds colour_mapping s (seq 0 (frames s))
         (get_empty_image (frames s) (image_pixels s)) = Some image_matrix /\
       mapM (prepare_object_table separation s star_table planet_tables) (seq 0 (frames s))
         = Some object_tables /\
       M = map flip_y (map moveaxis_channel_last
                         (fill_frames_sequentially world_to_pixel s object_tables image_matrix))).
Proof.
  assert (Hseq : forall (image_matrix : list Frame) (object_tables : list (list PrepRow))
                        (results : list (nat * Frame)),
            results ≡ₚ run_tasks world_to_pixel s (frame_tasks s image_matrix object_tables) ->
            reinsert_frames results image_matrix =
            fill_frames_sequentially world_to_pixel s object_tables image_matrix).
  { intros img tables results Hp.
    pose proof (run_frame_tasks s img tables (seq 0 (frames s))) as Hrun.
    change (filter _ (map _ (seq 0 (frames s)))) with (frame_tasks s img tables) in Hrun.
    rewrite <- (reinsert_frames_perm (run_tasks world_to_pixel s (frame_tasks s img tables))
                                     results img (Permutation_sym Hp)).
    2:{ rewrite Hrun, map_fst_pairs. apply NoDup_ListNoDup, NoDup_filter, NoDup_seq. }
    rewrite Hrun. unfold fill_frames_sequentially. symmetry.
    apply fill_sequential_reinsert; [apply seq_NoDup | intros; reflexivity]. }
  split; [exact Hseq|].
  intros M H. unfold create_image_matrix in H.
  destruct (fill_backgrounds colour_mapping s (seq 0 (frames s))
              (get_empty_image (frames s) (image_pixels s))) as [img|] eqn:Hb;
    [|discriminate].
  destruct (mapM (prepare_object_table separation s star_table planet_tables)
                 (seq 0 (frames s))) as [tables|] eqn:Ht; [|discriminate].
  simpl in H. injection H as <-.
  exists img, tables. split; [reflexivity|]. split; [reflexivity|].
  rewrite (Hseq img tables _ (Permutation_refl _)). reflexivity.
Qed.

End Reassembly.

(** ** The prepared object tables *)

Lemma Rle_bool_spec (a b : R) : Is_true (Rle_bool a b) <-> a <= b.
Proof. unfold Rle_bool. destruct (Rle_dec a b); simpl; split; tauto. Qed.

Lemma filter_objects_brightness_In (maximum_magnitude : R) (tbl : list CatRow) (r : CatRow) :
  In r (filter_objects_brightness maximum_magnitude tbl) <->
  In r tbl /\ cat_magnitude r <= maximum_magnitude.
Proof.
  unfold filter_objects_brightness.
  rewrite <- list_elem_of_In, list_elem_of_filter, Rle_bool_spec, list_elem_of_In. tauto.
Qed.

Lemma prep_rows_lookup (tbl : list CatRow) (bs : list R) (cs : list (list R)) (row : PrepRow) :
  In row (zip_with (fun r '(b, c) => mk_prep (cat_ra r) (cat_dec r) b c) tbl (zip bs cs)) ->
  exists k r b c, tbl !! k = Some r /\ bs !! k = Some b /\ cs !! k = Some c /\
                  row = mk_prep (cat_ra r) (cat_dec r) b c.
Proof.
  intros Hrow. apply list_elem_of_In, list_elem_of_lookup in Hrow as [k Hk].
  rewrite lookup_zip_with in Hk.
  destruct (tbl !! k) as [r|] eqn:Hr; simpl in Hk; [|discriminate].
  destruct (zip bs cs !! k) as [[b c]|] eqn:Hz; simpl in Hk; [|discriminate].
  rewrite lookup_zip_with in Hz.
  destruct (bs !! k) as [b'|] eqn:Hb; simpl in Hz; [|discriminate].
  destruct (cs !! k) as [c'|] eqn:Hc; simpl in Hz; [|discriminate].
  injection Hz as <- <-. injection Hk as <-. exists k, r, b', c'. auto.
Qed.

Lemma get_scaled_brightness_is_Some (magnitude : list R) :
  magnitude <> [] -> is_Some (get_scaled_brightness magnitude).
Proof.
  intros Hne.
  destruct (np_min_exists magnitude Hne) as [mn Hmn].
  destruct (np_max_exists magnitude Hne) as [mx Hmx].
  rewrite (get_scaled_brightness_eq _ mn mx Hmn Hmx). eexists. reflexivity.
Qed.

(** The dense lookup exists, with one entry per second of the day, as soon
    as there is a control point and every control point's index is valid. *)
Lemma magnitude_mapping_is_Some (mv : list R) (mti : list (R * nat)) :
  mti <> [] -> (forall hr index, In (hr, index) mti -> (index < length mv)%nat) ->
  exists mapping, magnitude_mapping mv mti = Some mapping /\
                  length mapping = (24 * 60 * 60)%nat.
Proof.
  intros Hne Hidx.
  assert (Hfp : is_Some (mapM (fun '(_, index) => mv !! index) mti)).
  { apply mapM_is_Some_2, Forall_forall. intros [hr index] Hin. simpl.
    apply lookup_lt_is_Some_2. eapply Hidx. apply list_elem_of_In. exact Hin. }
  destruct Hfp as [fp Hfp].
  assert (Hlen : length (map (fun '(hr, _) => hr / 24) mti) = length fp).
  { rewrite List.length_map. apply (length_mapM _ _ _ Hfp). }
  destruct (mapM_is_Some_2 (fun p => np_interp p (map (fun '(hr, _) => hr / 24) mti) fp)
              (np_linspace 0 1 (24 * 60 * 60))) as [mapping Hmap].
  { apply Forall_forall. intros p _. apply np_interp_is_Some; [|exact Hlen].
    destruct mti; [contradiction | discriminate]. }
  exists mapping. rewrite (magnitude_mapping_Some _ _ _ Hfp). split; [exact Hmap|].
  rewrite <- (length_mapM _ _ _ Hmap). apply np_linspace_length.
Qed.

Lemma mapM_singleton {A B} (f : A -> option B) (x : A) (y : B) :
  f x = Some y -> mapM f [x] = Some [y].
Proof. intros H. simpl. rewrite H. reflexivity. Qed.

Section Tables.

Variable separation : R * R -> R * R -> R.

Lemma filter_objects_fov_In (radec : R * R) (fov : R) (tbl : list CatRow) (r : CatRow) :
  In r (filter_objects_fov separation radec fov tbl) <->
  In r tbl /\ separation (cat_ra r, cat_dec r) radec <= fov / 2 * 1.01.
Proof.
  unfold filter_objects_fov.
  rewrite <- list_elem_of_In, list_elem_of_filter, Rle_bool_spec, list_elem_of_In. tauto.
Qed.

(** [prepare_object_table] returns a table as soon as the per-frame lookups
    succeed and every spectral type has a colour. *)
Lemma prepare_object_table_is_Some (s : ImageSettings) (star_table : list CatRow)
    (planet_tables : list (list CatRow)) (frame : nat) (planets : list CatRow)
    (mapping : list R) (local_datetime : datetime) (threshold : R) (radec : R * R) :
  planet_tables !! frame = Some planets ->
  magnitude_mapping (magnitude_values s) (magnitude_time_indices s) = Some mapping ->
  local_datetimes s !! frame = Some local_datetime ->
  get_timed_magnitude mapping local_datetime = Some threshold ->
  observation_radec s !! frame = Some radec ->
  (forall r, In r (star_table ++ planets) -> is_Some (object_colours s !! cat_spectral_type r)) ->
  is_Some (prepare_object_table separation s star_table planet_tables frame).
Proof.
  intros Hpl Hmap Hdt Hthr Hrd Hcol. unfold prepare_object_table.
  rewrite Hpl. simpl. rewrite Hmap. simpl. rewrite Hdt. simpl. rewrite Hthr. simpl.
  rewrite Hrd. simpl.
  set (tbl := filter_objects_fov separation radec (field_of_view s)
                (filter_objects_brightness threshold (star_table ++ planets))).
  destruct (decide (length tbl = 0%nat)) as [H0|H0]; [eexists; reflexivity|].
  destruct (get_scaled_brightness_is_Some (map cat_magnitude tbl)) as [bs Hbs].
  { intros Hnil. apply H0. rewrite <- (List.length_map cat_magnitude tbl), Hnil. reflexivity. }
  rewrite Hbs. simpl.
  destruct (mapM_is_Some_2 (fun r => object_colours s !! cat_spectral_type r) tbl) as [cs Hcs].
  { apply Forall_forall. intros r Hr. apply list_elem_of_In in Hr.
    apply filter_objects_fov_In in Hr as [Hr _].
    apply filter_objects_brightness_In in Hr as [Hr _]. exact (Hcol r Hr). }
  rewrite Hcs. eexists. reflexivity.
Qed.

(** Every row of a prepared table has a colour taken from [object_colours]
    and a brightness in [[MINIMUM_BRIGHTNESS, 1]]. *)
Lemma prepare_object_table_rows (s : ImageSettings) (star_table : list CatRow)
    (planet_tables : list (list CatRow)) (frame : nat) (out : list PrepRow) :
  prepare_object_table separation s star_table planet_tables frame = Some out ->
  Forall (fun row => (exists k, object_colours s !! k = Some (prep_rgb row)) /\
                     MINIMUM_BRIGHTNESS <= prep_brightness row <= 1) out.
Proof.
  intros H. unfold prepare_object_table in H.
  apply bind_Some in H as (planets & _ & H).
  apply bind_Some in H as (mapping & _ & H).
  apply bind_Some in H as (dt & _ & H).
  apply bind_Some in H as (thr & _ & H).
  apply bind_Some in H as (radec & _ & H).
  case_decide; [injection H as <-; constructor|].
  apply bind_Some in H as (bs & Hbs & H).
  apply bind_Some in H as (cs & Hcs & H).
  injection H as <-.
  apply Forall_forall. intros row Hrow. apply list_elem_of_In in Hrow.
  destruct (prep_rows_lookup _ _ _ _ Hrow) as (k & r & b & c & Hk & Hb & Hc & ->).
  simpl. split.
  - exists (cat_spectral_type r).
    exact (Forall2_lookup_lr _ _ _ _ _ _ (mapM_Some_1 _ _ _ Hcs) Hk Hc).
  - destruct (get_scaled_brightness_bounds _ _ Hbs) as [_ Hbnd].
    apply Hbnd. apply list_elem_of_In. eapply list_elem_of_lookup_2. exact Hb.
Qed.

(** The example configuration yields a table for its frame. *)
Lemma example_table_is_Some :
  is_Some (prepare_object_table separation example_settings [mk_cat 0 0 5 "G"] [[]] 0).
Proof.
  destruct (magnitude_mapping_is_Some [5] [(0, 0%nat)]) as (mapping & Hm & Hlen).
  { discriminate. }
  { intros hr index [H|[]]. injection H as _ <-. simpl. lia. }
  destruct (lookup_lt_is_Some_2 mapping 0) as [thr Hthr]; [lia|].
  assert (Hs : get_seconds_from_midnight (mk_datetime 0 0 0 0) = 0).
  { unfold get_seconds_from_midnight. simpl. lra. }
  assert (Htm : get_timed_magnitude mapping (mk_datetime 0 0 0 0) = Some thr).
  { unfold get_timed_magnitude. rewrite Hs, (py_int_IZR 0) by lia. exact Hthr. }
  apply (prepare_object_table_is_Some example_settings [mk_cat 0 0 5 "G"] [[]] 0 [] mapping
           (mk_datetime 0 0 0 0) thr (0, 0) eq_refl Hm eq_refl Htm eq_refl).
  simpl. intros r [<-|[]]. eexists. reflexivity.
Qed.

(** C2 *)
(** Claim C2: every row of the table [prepare_object_table] returns for a
    frame comes from a star or planet of that frame whose magnitude is at
    most the frame's threshold (read from the magnitude lookup at the
    frame's time) and whose separation from the frame's centre is at most
    [field_of_view / 2 * 1.01]; the brightness filter keeps exactly the
    rows with magnitude [<=] the threshold, so at threshold 5 a magnitude of
    5 is kept and 5.0001 dropped. *)
Theorem prepare_object_table_filters (s : ImageSettings) (star_table : list CatRow)
    (planet_tables : list (list CatRow)) (frame : nat) (out : list PrepRow) :
  prepare_object_table separation s star_table planet_tables frame = Some out ->
  (exists planets mapping local_datetime threshold radec,
     planet_tables !! frame = Some planets /\
     magnitude_mapping (magnitude_values s) (magnitude_time_indices s) = Some mapping /\
     local_datetimes s !! frame = Some local_datetime /\
     get_timed_magnitude mapping local_datetime = Some threshold /\
     observation_radec s !! frame = Some radec /\
     forall row, In row out ->
       exists r, In r (star_table ++ planets) /\
         cat_magnitude r <= threshold /\
         separation (cat_ra r, cat_dec r) radec <= field_of_view s / 2 * 1.01 /\
         prep_ra row = cat_ra r /\ prep_dec row = cat_dec r /\
         object_colours s !! cat_spectral_type r = Some (prep_rgb row) /\
         MINIMUM_BRIGHTNESS <= prep_brightness row <= 1) /\
  (forall threshold tbl r,
     In r (filter_objects_brightness threshold tbl) <-> In r tbl /\ cat_magnitude r <= threshold) /\
  filter_objects_brightness 5 [mk_cat 0 0 5 "A"; mk_cat 0 0 5.0001 "B"] = [mk_cat 0 0 5 "A"].
Proof.
  intros H. split; [|split; [exact filter_objects_brightness_In|]].
  2:{ unfold filter_objects_brightness. rewrite !filter_cons.
      rewrite decide_True by (apply Rle_bool_spec; simpl; lra).
      rewrite decide_False by (rewrite Rle_bool_spec; simpl; lra).
      reflexivity. }
  unfold prepare_object_table in H.
  apply bind_Some in H as (planets & Hpl & H).
  apply bind_Some in H as (mapping & Hmap & H).
  apply bind_Some in H as (dt & Hdt & H).
  apply bind_Some in H as (thr & Hthr & H).
  apply bind_Some in H as (radec & Hrd & H).
  exists planets, mapping, dt, thr, radec.
  do 5 (split; [assumption|]).
  set (tbl := filter_objects_fov separation radec (field_of_view s)
                (filter_objects_brightness thr (star_table ++ planets))) in H.
  destruct (decide (length tbl = 0%nat)) as [H0|H0].
  { injection H as <-. intros row []. }
  apply bind_Some in H as (bs & Hbs & H).
  apply bind_Some in H as (cs & Hcs & H).
  injection H as <-.
  intros row Hrow.
  destruct (prep_rows_lookup _ _ _ _ Hrow) as (k & r & b & c & Hk & Hb & Hc & ->).
  exists r.
  assert (Hr : In r tbl) by (apply list_elem_of_In; eapply list_elem_of_lookup_2; exact Hk).
  apply filter_objects_fov_In in Hr as [Hr Hsep].
  apply filter_objects_brightness_In in Hr as [Hr Hmag].
  destruct (get_scaled_brightness_bounds _ _ Hbs) as [_ Hbnd].
  simpl. split; [exact Hr|]. split; [exact Hmag|]. split; [exact Hsep|].
  split; [reflexivity|]. split; [reflexivity|]. split.
  - exact (Forall2_lookup_lr _ _ _ _ _ _ (mapM_Some_1 _ _ _ Hcs) Hk Hc).
  - apply Hbnd. apply list_elem_of_In. eapply list_elem_of_lookup_2. exact Hb.
Qed.

End Tables.

Lemma prepare_object_table_filters_witness :
  exists out,
    prepare_object_table (fun _ _ => 0) example_settings [mk_cat 0 0 5 "G"] [[]] 0 = Some out /\
    Forall (fun row => prep_rgb row = [1; 1; 1]) out.
Proof.
  destruct (example_table_is_Some (fun _ _ => 0)) as [out Hout].
  exists out. split; [exact Hout|].
  destruct (prepare_object_table_filters (fun _ _ => 0) _ _ _ _ _ Hout)
    as [(pl & mp & dt & th & rd & Hpl & _ & _ & _ & _ & Hrows) _].
  simpl in Hpl. injection Hpl as <-.
  apply List.Forall_forall. intros row Hrow.
  destruct (Hrows row Hrow) as (r & Hr & _ & _ & _ & _ & Hc & _).
  simpl in Hr. destruct Hr as [<-|[]].
  change (({[ "G"%string := [1; 1; 1] ]} : gmap string (list R)) !! "G"%string
          = Some (prep_rgb row)) in Hc.
  rewrite lookup_singleton in Hc. injection Hc as <-. reflexivity.
Defined.

(** ** Shapes and value ranges of the returned matrix *)

Lemma Forall_lookup_total {A} `{Inhabited A} (P : A -> Prop) (l : list A) (i : nat) :
  Forall P l -> P inhabitant -> P (l !!! i).
Proof.
  intros Hf Hd. rewrite list_lookup_total_alt.
  destruct (l !! i) as [x|] eqn:Hi; simpl; [|exact Hd].
  rewrite Forall_lookup in Hf. exact (Hf _ _ Hi).
Qed.

Lemma Forall_imap {A B} (P : B -> Prop) (f : nat -> A -> B) (l : list A) :
  (forall i x, P (f i x)) -> Forall P (imap f l).
Proof.
  intros Hf. apply Forall_lookup. intros i y Hy.
  rewrite list_lookup_imap in Hy. apply fmap_Some in Hy as (x & _ & ->). apply Hf.
Qed.

Lemma foldl_invariant {A B} (P : A -> Prop) (Q : B -> Prop) (f : A -> B -> A)
    (l : list B) (a : A) :
  (forall a b, P a -> Q b -> P (f a b)) -> Forall Q l -> P a -> P (foldl f a l).
Proof.
  intros Hf Hl. revert a. induction Hl as [|b l Hb Hl IH]; intros a Ha; simpl; [exact Ha|].
  apply IH. apply Hf; assumption.
Qed.

Lemma in_unit_0 : in_unit 0.
Proof. unfold in_unit. lra. Qed.

Lemma in_unit_mult (a b : R) : in_unit a -> in_unit b -> in_unit (a * b).
Proof.
  unfold in_unit. intros Ha Hb. split; [apply Rmult_le_pos; lra|].
  rewrite <- (Rmult_1_r 1). apply Rmult_le_compat; lra.
Qed.

Lemma in_unit_convex (w a b : R) : in_unit w -> in_unit a -> in_unit b -> in_unit (w * a + (1 - w) * b).
Proof.
  unfold in_unit. intros Hw Ha Hb. split.
  - assert (0 <= w * a) by (apply Rmult_le_pos; lra).
    assert (0 <= (1 - w) * b) by (apply Rmult_le_pos; lra). lra.
  - assert (w * a <= w * 1) by (apply Rmult_le_compat_l; lra).
    assert ((1 - w) * b <= (1 - w) * 1) by (apply Rmult_le_compat_l; lra). lra.
Qed.

Lemma Forall_convex_blend (w : R) (a b : list R) :
  in_unit w -> Forall in_unit a -> Forall in_unit b -> Forall in_unit (convex_blend w a b).
Proof.
  intros Hw Ha. revert b.
  induction Ha as [|x a Hx Ha IH]; intros [|y b] Hb; [constructor | constructor | constructor|].
  apply Forall_cons_1 in Hb as [Hy Hb].
  change (Forall in_unit ((w * x + (1 - w) * y) :: convex_blend w a b)).
  constructor; [apply in_unit_convex; assumption | apply IH; exact Hb].
Qed.

(** The truncated Gaussian kernel holds 0 or 1 in every cell. *)
Lemma brightness_gaussian_bounds (sd r : R) : 0 < brightness_gaussian sd r <= 1.
Proof.
  unfold brightness_gaussian. split; [apply exp_pos|].
  assert (Hinv : 0 <= / sd ^ 2).
  { destruct (Req_dec (sd ^ 2) 0) as [E|E]; [rewrite E, Rinv_0; lra|].
    apply Rlt_le, Rinv_0_lt_compat. pose proof (pow2_ge_0 sd). lra. }
  assert (Hx : - r ^ 2 / sd ^ 2 <= 0).
  { unfold Rdiv. pose proof (pow2_ge_0 r).
    assert (0 <= r ^ 2 * / sd ^ 2) by (apply Rmult_le_pos; assumption). lra. }
  destruct (Rle_lt_or_eq_dec _ _ Hx) as [Hlt|Heq].
  - rewrite <- exp_0. apply Rlt_le, exp_increasing. exact Hlt.
  - rewrite Heq, exp_0. lra.
Qed.

Lemma brightness_scale_mesh_01 (sd : R) :
  Forall (Forall (fun z => z = 0%Z \/ z = 1%Z)) (brightness_scale_mesh sd).
Proof.
  unfold brightness_scale_mesh. apply Forall_imap. intros yi row. apply Forall_imap. intros xi _.
  destruct (brightness_gaussian_bounds sd ((radial_distance (area_mesh sd) !!! xi) !!! yi))
    as [H0 H1].
  destruct (Rle_lt_or_eq_dec _ _ H1) as [Hlt|Heq].
  - left. apply py_int_small. lra.
  - right. rewrite Heq. apply (py_int_IZR 1). lia.
Qed.

Lemma kernel_weight_in_unit (sd : R) (i j : nat) :
  in_unit ((map (map IZR) (brightness_scale_mesh sd) !!! i) !!! j).
Proof.
  apply Forall_lookup_total; [|exact in_unit_0].
  apply Forall_lookup_total; [|constructor].
  pose proof (brightness_scale_mesh_01 sd) as H.
  rewrite List.Forall_map. eapply Forall_impl; [exact H|]. intros row Hrow.
  rewrite List.Forall_map. eapply Forall_impl; [exact Hrow|].
  intros z [-> | ->]; unfold in_unit; simpl; lra.
Qed.

Lemma get_px_in_unit (fr : Frame) (x y : Z) :
  frame_in_unit fr -> Forall in_unit (get_px fr x y).
Proof.
  intros Hu. unfold get_px. rewrite List.Forall_map.
  eapply Forall_impl; [exact Hu|]. intros ch Hch.
  apply Forall_lookup_total; [|exact in_unit_0].
  apply Forall_lookup_total; [exact Hch | constructor].
Qed.

Lemma set_px_in_unit (fr : Frame) (x y : Z) (v : list R) :
  frame_in_unit fr -> Forall in_unit v -> frame_in_unit (set_px fr x y v).
Proof.
  unfold frame_in_unit. intros Hf. revert v.
  induction Hf as [|ch fr Hch Hf IH]; intros [|c v] Hv; [constructor | constructor | constructor|].
  apply Forall_cons_1 in Hv as [Hc Hv].
  rewrite set_px_cons. constructor; [|apply IH; exact Hv].
  apply Forall_alter; [exact Hch|]. intros col _ Hcol.
  apply Forall_insert; assumption.
Qed.

Lemma add_object_step_in_unit (o : ObjRow) am (bsm : list (list R)) (n : nat) (fr : Frame)
    (ij : nat * nat) :
  frame_shape n fr -> frame_in_unit fr -> length (obj_rgb o) = 3%nat ->
  Forall in_unit (obj_rgb o) -> in_unit ((bsm !!! ij.1) !!! ij.2 * obj_brightness o) ->
  frame_shape n (add_object_step o am bsm fr ij) /\ frame_in_unit (add_object_step o am bsm fr ij).
Proof.
  intros Hs Hu Hl Hc Hw.
  split; [exact (proj1 (add_object_step_spec o am bsm n fr ij Hs Hl))|].
  unfold add_object_step. destruct (offset_xy o am ij) as [fx fy].
  destruct (pixel_in_frame _ _ _); [|exact Hu].
  cbv zeta. apply set_px_in_unit; [exact Hu|].
  rewrite np_average2_convex.
  apply Forall_convex_blend; [exact Hw | exact Hc | apply get_px_in_unit; exact Hu].
Qed.

Lemma add_object_to_frame_in_unit (o : ObjRow) (fr : Frame) (sd : R) (n : nat) :
  frame_shape n fr -> frame_in_unit fr -> length (obj_rgb o) = 3%nat ->
  Forall in_unit (obj_rgb o) -> in_unit (obj_brightness o) ->
  frame_shape n (add_object_to_frame o fr (area_mesh sd) (map (map IZR) (brightness_scale_mesh sd)))
  /\ frame_in_unit
       (add_object_to_frame o fr (area_mesh sd) (map (map IZR) (brightness_scale_mesh sd))).
Proof.
  intros Hs Hu Hl Hc Hb. unfold add_object_to_frame.
  apply (foldl_invariant (fun f => frame_shape n f /\ frame_in_unit f) (fun _ => True));
    [| apply Forall_forall; intros; exact I | split; assumption].
  intros f ij [Hfs Hfu] _.
  apply add_object_step_in_unit; try assumption.
  apply in_unit_mult; [apply kernel_weight_in_unit | exact Hb].
Qed.

(** The colour of a [(3, n, n)] background fill. *)
Lemma fill_frame_background_in_unit (colour : list R) (fr : Frame) (n : nat) :
  length colour = 3%nat -> Forall in_unit colour -> frame_shape n fr ->
  frame_shape n (fill_frame_background colour fr) /\
  frame_in_unit (fill_frame_background colour fr).
Proof.
  intros Hl Hc [Hfl Hf]. unfold fill_frame_background, frame_shape, frame_in_unit.
  rewrite length_zip_with, Hl, Hfl.
  cut (Forall (channel_shape n)
         (zip_with (fun c channel => map (map (fun _ => c)) channel) colour fr) /\
       Forall (Forall (Forall in_unit))
         (zip_with (fun c channel => map (map (fun _ => c)) channel) colour fr)).
  { intros [H1 H2]. split; [split; [reflexivity | exact H1] | exact H2]. }
  clear Hl Hfl. revert fr Hf.
  induction Hc as [|c cs Hc0 Hcs IH]; intros [|ch chs] Hf;
    [split; constructor | split; constructor | split; constructor |].
  apply Forall_cons_1 in Hf as [[Hlc Hcols] Hf].
  destruct (IH chs Hf) as [IH1 IH2].
  change (zip_with (fun c channel => map (map (fun _ => c)) channel) (c :: cs) (ch :: chs))
    with (map (map (fun _ => c)) ch
          :: zip_with (fun c channel => map (map (fun _ => c)) channel) cs chs).
  split; constructor; [| exact IH1 | | exact IH2].
  - split; [rewrite List.length_map; exact Hlc|].
    rewrite List.Forall_map. eapply Forall_impl; [exact Hcols|].
    intros col Hcol. rewrite List.length_map. exact Hcol.
  - rewrite List.Forall_map. apply Forall_forall. intros col _.
    rewrite List.Forall_map. apply Forall_forall. intros v _. exact Hc0.
Qed.

Lemma removelast_rgba (l : list R) :
  length l = 4%nat -> Forall in_unit l ->
  length (removelast l) = 3%nat /\ Forall in_unit (removelast l).
Proof.
  intros Hl Hf. destruct l as [|a [|b [|c [|d [|e l]]]]]; simpl in Hl; try discriminate.
  apply Forall_cons_1 in Hf as [Ha Hf]. apply Forall_cons_1 in Hf as [Hb Hf].
  apply Forall_cons_1 in Hf as [Hc _].
  split; [reflexivity|]. repeat (constructor; [assumption|]). constructor.
Qed.

Lemma get_empty_image_in_unit (N n : nat) :
  Forall (fun fr => frame_shape n fr /\ frame_in_unit fr) (get_empty_image N n).
Proof.
  apply Forall_replicate. split.
  - split; [apply length_replicate|].
    apply Forall_replicate. split; [apply length_replicate|].
    apply Forall_replicate, length_replicate.
  - apply Forall_replicate, Forall_replicate, Forall_replicate, in_unit_0.
Qed.

Lemma fill_backgrounds_in_unit (colour_mapping : R -> list R) (s : ImageSettings) (n : nat)
    (L : list nat) (img img' : list Frame) :
  (forall t, length (colour_mapping t) = 4%nat /\ Forall in_unit (colour_mapping t)) ->
  fill_backgrounds colour_mapping s L img = Some img' ->
  Forall (fun fr => frame_shape n fr /\ frame_in_unit fr) img ->
  Forall (fun fr => frame_shape n fr /\ frame_in_unit fr) img' /\ length img' = length img.
Proof.
  intros Hcm. revert img.
  induction L as [|i L IH]; intros img H Hf.
  - cbn [fill_backgrounds] in H. injection H as <-. split; [exact Hf | reflexivity].
  - cbn [fill_backgrounds] in H. apply bind_Some in H as (dt & _ & H).
    destruct (IH _ H) as [Hf' Hl'].
    + destruct (decide (i < length img)%nat) as [Hi|Hi].
      * apply Forall_insert; [exact Hf|].
        rewrite Forall_lookup in Hf.
        destruct (Hf _ _ (list_lookup_lookup_total_lt img i Hi)) as [Hs _].
        unfold get_timed_background_colour.
        destruct (Hcm (get_seconds_from_midnight dt / (24 * 60 * 60))) as [Hl4 Hu4].
        destruct (removelast_rgba _ Hl4 Hu4) as [Hl3 Hu3].
        exact (fill_frame_background_in_unit _ _ n Hl3 Hu3 Hs).
      * rewrite list_insert_ge by lia. exact Hf.
    + split; [exact Hf'|]. rewrite Hl', length_insert. reflexivity.
Qed.

Lemma reinsert_frames_Forall (P : Frame -> Prop) (l : list (nat * Frame)) (img : list Frame) :
  Forall (fun p => P p.2) l -> Forall P img ->
  Forall P (reinsert_frames l img) /\ length (reinsert_frames l img) = length img.
Proof.
  intros Hl. revert img. induction Hl as [|[i fr] l Hp Hl IH]; intros img Himg.
  - split; [exact Himg | reflexivity].
  - rewrite reinsert_frames_cons.
    destruct (IH (<[i := fr]> img)) as [H1 H2]; [apply Forall_insert; assumption|].
    split; [exact H1|]. rewrite H2, length_insert. reflexivity.
Qed.

Lemma moveaxis_flip_output (n : nat) (fr : Frame) :
  frame_shape n fr -> frame_in_unit fr -> output_frame n (flip_y (moveaxis_channel_last fr)).
Proof.
  intros Hs Hu. pose proof (frame_last_dim_shape n fr Hs) as Hny.
  destruct Hs as [Hl Hf].
  assert (Hnx : length (fr !!! 0%nat) = n).
  { destruct fr as [|ch frs]; [discriminate|]. change ((ch :: frs) !!! 0%nat) with ch.
    apply Forall_cons_1 in Hf as [[H _] _]. exact H. }
  unfold moveaxis_channel_last, flip_y. cbv zeta.
  change (length ((fr !!! 0%nat) !!! 0%nat)) with (frame_last_dim fr).
  rewrite Hny, Hnx, Hl.
  split; [rewrite !List.length_map, length_seq; reflexivity|].
  rewrite !List.Forall_map. apply Forall_forall. intros x _.
  split; [rewrite length_rev, List.length_map, length_seq; reflexivity|].
  apply Forall_rev. rewrite List.Forall_map. apply Forall_forall. intros y _.
  split; [rewrite List.length_map, length_seq; reflexivity|].
  rewrite List.Forall_map. apply Forall_forall. intros c _.
  apply Forall_lookup_total; [|exact in_unit_0].
  apply Forall_lookup_total; [|constructor].
  apply Forall_lookup_total; [exact Hu | constructor].
Qed.

Section Output.

Variable colour_mapping : R -> list R.
Variable world_to_pixel : nat -> R -> R -> R * R.
Variable separation : R * R -> R * R -> R.

Lemma fill_frame_objects_in_unit (s : ImageSettings) (i : nat) (fr : Frame)
    (table : list PrepRow) (n : nat) :
  frame_shape n fr -> frame_in_unit fr ->
  Forall (fun row => length (prep_rgb row) = 3%nat /\ Forall in_unit (prep_rgb row) /\
                     in_unit (prep_brightness row)) table ->
  frame_shape n (fill_frame_objects world_to_pixel s i fr table).2 /\
  frame_in_unit (fill_frame_objects world_to_pixel s i fr table).2.
Proof.
  intros Hs Hu Ht. unfold fill_frame_objects. cbv zeta. cbn [snd].
  apply (foldl_invariant (fun f => frame_shape n f /\ frame_in_unit f)
           (fun o => length (obj_rgb o) = 3%nat /\ Forall in_unit (obj_rgb o) /\
                     in_unit (obj_brightness o))).
  - intros f o [Hfs Hfu] (Hl & Hc & Hb). apply add_object_to_frame_in_unit; assumption.
  - rewrite List.Forall_map. eapply Forall_impl; [exact Ht|]. intros row H. exact H.
  - split; assumption.
Qed.

(** C8 *)
(** Claim C8: when the colour map returns RGBA values in [[0, 1]] and every
    object colour is an RGB triple in [[0, 1]] (the kernel weights lie in
    [[0, 1]] by construction, and brightness in [[0.2, 1]]), the matrix
    returned by [create_image_matrix] has [frames] frames, each of shape
    [(image_pixels, image_pixels, 3)] (channel axis last, one spatial axis
    reversed, nothing resized), and every channel value lies in [[0, 1]]. *)
Theorem create_image_matrix_shape_range (s : ImageSettings)
    (planet_tables : list (list CatRow)) (star_table : list CatRow)
    (M : list (list (list (list R)))) :
  (forall t, length (colour_mapping t) = 4%nat /\ Forall in_unit (colour_mapping t)) ->
  (forall k c, object_colours s !! k = Some c -> length c = 3%nat /\ Forall in_unit c) ->
  create_image_matrix colour_mapping world_to_pixel separation s planet_tables star_table
    = Some M ->
  length M = frames s /\ Forall (output_frame (image_pixels s)) M.
Proof.
  intros Hcm Hcol H. unfold create_image_matrix in H.
  destruct (fill_backgrounds colour_mapping s (seq 0 (frames s))
              (get_empty_image (frames s) (image_pixels s))) as [img|] eqn:Hb;
    [|discriminate].
  destruct (mapM (prepare_object_table separation s star_table planet_tables)
                 (seq 0 (frames s))) as [tables|] eqn:Ht; [|discriminate].
  simpl in H. injection H as <-.
  set (n := image_pixels s).
  destruct (fill_backgrounds_in_unit colour_mapping s n _ _ _ Hcm Hb
              (get_empty_image_in_unit _ _)) as [Himg Hlen].
  unfold get_empty_image in Hlen. rewrite length_replicate in Hlen.
  assert (Htabs : Forall (Forall (fun row => length (prep_rgb row) = 3%nat /\
                                             Forall in_unit (prep_rgb row) /\
                                             in_unit (prep_brightness row))) tables).
  { apply Forall_lookup. intros k t Hk.
    destruct (Forall2_lookup_r _ _ _ _ _ (mapM_Some_1 _ _ _ Ht) Hk) as (i & _ & Hi).
    eapply Forall_impl; [exact (prepare_object_table_rows separation _ _ _ _ _ Hi)|].
    intros row [[k' Hk'] Hbr]. destruct (Hcol _ _ Hk') as [Hl3 Hu3].
    split; [exact Hl3|]. split; [exact Hu3|].
    unfold in_unit, MINIMUM_BRIGHTNESS in *. lra. }
  assert (Hres : Forall (fun p => frame_shape n p.2 /\ frame_in_unit p.2)
                        (run_tasks world_to_pixel s (frame_tasks s img tables))).
  { unfold frame_tasks. rewrite (run_frame_tasks world_to_pixel).
    rewrite List.Forall_map. apply List.Forall_forall. intros i Hi.
    apply list_elem_of_In, list_elem_of_filter in Hi as [_ Hi].
    apply elem_of_seq in Hi. cbn [snd].
    rewrite Forall_lookup in Himg.
    destruct (Himg _ _ (list_lookup_lookup_total_lt img i ltac:(lia))) as [Hs Hu].
    apply fill_frame_objects_in_unit; [exact Hs | exact Hu|].
    apply Forall_lookup_total; [exact Htabs | constructor]. }
  destruct (reinsert_frames_Forall (fun fr => frame_shape n fr /\ frame_in_unit fr)
              _ img Hres Himg) as [Hall Hlen2].
  split; [rewrite !List.length_map, Hlen2, Hlen; reflexivity|].
  rewrite !List.Forall_map. eapply Forall_impl; [exact Hall|].
  intros fr [Hs Hu]. apply moveaxis_flip_output; assumption.
Qed.

End Output.

Lemma create_image_matrix_shape_range_witness :
  exists M,
    create_image_matrix (fun _ => [0; 0; 0; 1]) (fun _ _ _ => (0, 0)) (fun _ _ => 0)
      example_settings [[]] [mk_cat 0 0 5 "G"] = Some M /\
    length M = 1%nat /\ Forall (output_frame 2) M.
Proof.
  destruct (example_table_is_Some (fun _ _ => 0)) as [out Hout].
  assert (HM : exists M,
            create_image_matrix (fun _ => [0; 0; 0; 1]) (fun _ _ _ => (0, 0)) (fun _ _ => 0)
              example_settings [[]] [mk_cat 0 0 5 "G"] = Some M).
  { unfold create_image_matrix.
    change (seq 0 (frames example_settings)) with [0%nat].
    rewrite (mapM_singleton _ 0%nat out Hout).
    eexists. reflexivity. }
  destruct HM as [M HM]. exists M. split; [exact HM|].
  apply (create_image_matrix_shape_range (fun _ => [0; 0; 0; 1]) (fun _ _ _ => (0, 0))
           (fun _ _ => 0) example_settings [[]] [mk_cat 0 0 5 "G"] M).
  - intros t. split; [reflexivity|].
    apply List.Forall_forall. intros x Hx. unfold in_unit.
    destruct Hx as [<-|[<-|[<-|[<-|[]]]]]; lra.
  - intros k c Hk.
    change (({[ "G"%string := [1; 1; 1] ]} : gmap string (list R)) !! k = Some c) in Hk.
    apply lookup_singleton_Some in Hk as [_ <-].
    split; [reflexivity|].
    apply List.Forall_forall. intros x Hx. unfold in_unit.
    destruct Hx as [<-|[<-|[<-|[]]]]; lra.
  - exact HM.
Defined.

(** * Further properties *)

(** ** The time of day *)

Lemma Int_part_unique (x : R) (z : Z) : IZR z <= x < IZR z + 1 -> Int_part x = z.
Proof.
  intros Hx. unfold Int_part.
  rewrite <- (tech_up x (z + 1)); [lia | |]; rewrite plus_IZR; lra.
Qed.

(** The whole minute of the day, in seconds. *)
Lemma get_seconds_from_midnight_bounds (t : datetime) :
  valid_time t ->
  INR (hour t * 3600 + minute t * 60) <= get_seconds_from_midnight t
    < INR (hour t * 3600 + minute t * 60) + 1 /\
  (hour t * 3600 + minute t * 60 < 24 * 60 * 60)%nat.
Proof.
  intros (Hh & Hm & Hus).
  assert (Hz : INR (hour t * 3600 + minute t * 60) = INR (hour t) * 3600 + INR (minute t) * 60).
  { rewrite plus_INR, !mult_INR, !INR_IZR_INZ. simpl. ring. }
  pose proof (pos_INR (microsecond t)).
  unfold get_seconds_from_midnight. rewrite Hz.
  split; [split|]; [| |lia].
  - assert (0 <= INR (microsecond t) / 1000000) by (unfold Rdiv; apply Rmult_le_pos; [lra | left; apply Rinv_0_lt_compat; lra]). lra.
  - assert (INR (microsecond t) / 1000000 < 1).
    { apply (Rmult_lt_reg_r 1000000); [lra|]. unfold Rdiv.
      rewrite Rmult_assoc, Rinv_l by lra. lra. }
    lra.
Qed.

Lemma magnitude_mapping_length (mv : list R) (mti : list (R * nat)) (mapping : list R) :
  magnitude_mapping mv mti = Some mapping -> length mapping = (24 * 60 * 60)%nat.
Proof.
  intros H.
  destruct (mapM (fun '(_, index) => mv !! index) mti) as [fp|] eqn:Hfp.
  - rewrite (magnitude_mapping_Some _ _ _ Hfp) in H.
    apply length_mapM in H. rewrite <- H. apply np_linspace_length.
  - unfold magnitude_mapping in H. rewrite Hfp in H. discriminate.
Qed.

(** X1 *)
(** For every valid time of day, [get_timed_magnitude] on the lookup built
    by [magnitude_mapping] never raises: it reads the entry of the whole
    minute of the day, [hour * 3600 + minute * 60]. *)
Theorem get_timed_magnitude_minute_of_day (mv : list R) (mti : list (R * nat))
    (mapping : list R) (local_datetime : datetime) :
  magnitude_mapping mv mti = Some mapping -> valid_time local_datetime ->
  exists m, get_timed_magnitude mapping local_datetime = Some m /\
            mapping !! (hour local_datetime * 3600 + minute local_datetime * 60)%nat = Some m.
Proof.
  intros Hm Hv.
  pose proof (magnitude_mapping_length _ _ _ Hm) as Hlen.
  destruct (get_seconds_from_midnight_bounds _ Hv) as [Hb Hlt].
  set (k := (hour local_datetime * 3600 + minute local_datetime * 60)%nat) in *.
  assert (Hi : py_int (get_seconds_from_midnight local_datetime) = Z.of_nat k).
  { unfold py_int. rewrite INR_IZR_INZ in Hb.
    destruct (Rle_dec 0 _) as [_|Hn].
    - apply Int_part_unique. exact Hb.
    - exfalso. apply Hn. pose proof (pos_INR k). rewrite INR_IZR_INZ in H. lra. }
  destruct (lookup_lt_is_Some_2 mapping k) as [m Hk]; [lia|].
  exists m. split; [|exact Hk].
  unfold get_timed_magnitude, np_index. rewrite Hi.
  replace (Z.leb 0 (Z.of_nat k)) with true by (symmetry; apply Z.leb_le; lia).
  rewrite Nat2Z.id. exact Hk.
Qed.

(** X2 *)
(** For every valid time of day, [get_timed_background_colour] queries the
    colour map at a day fraction in [[0, 1)], never at or beyond the end of
    the map. *)
Theorem get_timed_background_colour_day_fraction (colour_mapping : R -> list R)
    (local_datetime : datetime) :
  valid_time local_datetime ->
  exists f, 0 <= f < 1 /\
    get_timed_background_colour colour_mapping local_datetime = removelast (colour_mapping f).
Proof.
  intros Hv.
  destruct (get_seconds_from_midnight_bounds _ Hv) as [Hb Hlt].
  exists (get_seconds_from_midnight local_datetime / (24 * 60 * 60)).
  split; [|reflexivity].
  assert (Hle : (S (hour local_datetime * 3600 + minute local_datetime * 60) <= 24 * 60 * 60)%nat)
    by lia.
  apply le_INR in Hle. rewrite S_INR, !mult_INR in Hle.
  assert (Hn : INR 24 * INR 60 * INR 60 = 24 * 60 * 60) by (simpl; lra).
  pose proof (pos_INR (hour local_datetime * 3600 + minute local_datetime * 60)).
  split.
  - unfold Rdiv. apply Rmult_le_pos; [lra | left; apply Rinv_0_lt_compat; lra].
  - apply (Rmult_lt_reg_r (24 * 60 * 60)); [lra|]. unfold Rdiv.
    rewrite Rmult_assoc, Rinv_l by lra. lra.
Qed.

Lemma get_timed_magnitude_minute_of_day_witness :
  exists mapping, magnitude_mapping [5] [(0, 0%nat)] = Some mapping /\
    valid_time (mk_datetime 13 45 30 0) /\
    exists m, get_timed_magnitude mapping (mk_datetime 13 45 30 0) = Some m /\
              mapping !! (13 * 3600 + 45 * 60)%nat = Some m.
Proof.
  destruct (magnitude_mapping_is_Some [5] [(0, 0%nat)]) as (mapping & Hm & _).
  { discriminate. }
  { intros hr index [H|[]]. injection H as _ <-. simpl. lia. }
  assert (Hv : valid_time (mk_datetime 13 45 30 0)).
  { unfold valid_time. simpl. split; [lia | split; [lia | lra]]. }
  exists mapping. split; [exact Hm|]. split; [exact Hv|].
  exact (get_timed_magnitude_minute_of_day [5] [(0, 0%nat)] mapping _ Hm Hv).
Defined.

Lemma get_timed_background_colour_day_fraction_witness :
  valid_time (mk_datetime 23 59 59 0) /\
  exists f, 0 <= f < 1 /\
    get_timed_background_colour (fun f => [f; f; f; 1]) (mk_datetime 23 59 59 0)
    = removelast [f; f; f; 1].
Proof.
  assert (Hv : valid_time (mk_datetime 23 59 59 0)).
  { unfold valid_time. simpl. split; [lia | split; [lia | lra]]. }
  split; [exact Hv|].
  exact (get_timed_background_colour_day_fraction (fun f => [f; f; f; 1]) _ Hv).
Defined.

(** ** Magnitudes and fluxes *)

(** X3 *)
(** [magnitude_to_flux] is positive and strictly decreasing, and five
    magnitudes fainter is a hundred times less flux. *)
Theorem magnitude_to_flux_pogson (magnitude : R) :
  0 < magnitude_to_flux magnitude /\
  (forall fainter, magnitude < fainter ->
     magnitude_to_flux fainter < magnitude_to_flux magnitude) /\
  magnitude_to_flux (magnitude + 5) = magnitude_to_flux magnitude / 100.
Proof.
  unfold magnitude_to_flux. split; [apply exp_pos|].
  split.
  { intros fainter Hf. apply Rpower_lt; lra. }
  replace (- (magnitude + 5) / 2.5) with (- magnitude / 2.5 + - INR 2) by (simpl; lra).
  rewrite Rpower_plus, Rpower_Ropp, Rpower_pow by lra.
  simpl. field.
Qed.

(** ** [linear_rescale] *)

(** One rescaled value, with the range guard of [linear_rescale]. *)
Lemma rescale_point (mn mx d new_min new_max : R) :
  mn <= d <= mx -> new_min <= new_max ->
  let data_range := if Req_EM_T (mx - mn) 0 then 1 else mx - mn in
  0 <= (new_max - new_min) / data_range /\
  new_min <= (d - mn) * ((new_max - new_min) / data_range) + new_min <= new_max.
Proof.
  intros Hd Hn. simpl.
  destruct (Req_EM_T (mx - mn) 0) as [He|He].
  - replace (d - mn) with 0 by lra. split; [|lra].
    unfold Rdiv. rewrite Rinv_1. lra.
  - assert (Hk : 0 <= (new_max - new_min) / (mx - mn)).
    { unfold Rdiv. apply Rmult_le_pos; [lra | left; apply Rinv_0_lt_compat; lra]. }
    assert (Hr : (mx - mn) * ((new_max - new_min) / (mx - mn)) = new_max - new_min)
      by (field; lra).
    split; [exact Hk|].
    pose proof (Rmult_le_compat_r _ _ _ Hk (proj2 Hd)) as H1.
    assert (H2 : 0 <= (d - mn) * ((new_max - new_min) / (mx - mn)))
      by (apply Rmult_le_pos; lra).
    assert (H3 : (d - mn) * ((new_max - new_min) / (mx - mn))
                 <= (mx - mn) * ((new_max - new_min) / (mx - mn))).
    { apply Rmult_le_compat_r; lra. }
    lra.
Qed.

(** X4 *)
(** On a non-empty array and a range [new_min <= new_max],
    [linear_rescale] returns one value per input, all within
    [[new_min, new_max]], in the same order as the input values; an empty
    array raises. *)
Theorem linear_rescale_range_order (data : list R) (new_min new_max : R) :
  linear_rescale [] new_min new_max = None /\
  (data <> [] -> new_min <= new_max ->
   exists out, linear_rescale data new_min new_max = Some out /\
     length out = length data /\
     Forall (fun v => new_min <= v <= new_max) out /\
     forall i j di dj, data !! i = Some di -> data !! j = Some dj -> di <= dj ->
       out !!! i <= out !!! j).
Proof.
  split; [reflexivity|].
  intros Hne Hn.
  destruct (np_min_exists _ Hne) as [mn Hmn].
  destruct (np_max_exists _ Hne) as [mx Hmx].
  pose proof Hmn as Hmn'. pose proof Hmx as Hmx'.
  apply np_min_spec in Hmn' as [_ Hmin]. apply np_max_spec in Hmx' as [_ Hmax].
  set (g := fun d => (d - mn) * ((new_max - new_min) /
                      (if Req_EM_T (mx - mn) 0 then 1 else mx - mn)) + new_min).
  exists (map g data).
  split.
  { unfold linear_rescale. rewrite Hmn, Hmx. reflexivity. }
  split; [apply List.length_map|].
  split.
  - apply List.Forall_map, List.Forall_forall. intros d Hd.
    apply (rescale_point mn mx d new_min new_max); [split; auto | exact Hn].
  - intros i j di dj Hi Hj Hij.
    rewrite !list_lookup_total_alt, !map_as_fmap, !list_lookup_fmap, Hi, Hj. simpl.
    assert (Hdi : In di data) by (apply list_elem_of_In; eapply list_elem_of_lookup_2; exact Hi).
    destruct (rescale_point mn mx di new_min new_max) as [Hk _]; [split; auto | exact Hn|].
    unfold g. apply Rplus_le_compat_r, Rmult_le_compat_r; [exact Hk | lra].
Qed.

Lemma linear_rescale_range_order_witness :
  [3; 1; 2] <> [] /\ 0 <= 1 /\
  exists out, linear_rescale [3; 1; 2] 0 1 = Some out /\
     length out = length [3; 1; 2] /\
     Forall (fun v => 0 <= v <= 1) out /\
     forall i j di dj, [3; 1; 2] !! i = Some di -> [3; 1; 2] !! j = Some dj -> di <= dj ->
       out !!! i <= out !!! j.
Proof.
  split; [discriminate|]. split; [lra|].
  exact (proj2 (linear_rescale_range_order [3; 1; 2] 0 1) ltac:(discriminate) ltac:(lra)).
Defined.

(** ** The dense magnitude lookup stays within the control values *)

Lemma Forall_last {A} (P : A -> Prop) (l : list A) (d : A) :
  Forall P l -> P d -> P (List.last l d).
Proof.
  intros Hl. revert d. induction Hl as [|x l Hx Hl IH]; intros d Hd; [exact Hd|].
  destruct l as [|y l]; [exact Hx | exact (IH d Hd)].
Qed.

(** A value on a segment lies between the segment's end values. *)
Lemma lerp_between (x0 x1 x y0 y1 lo hi : R) :
  x0 < x < x1 -> lo <= y0 <= hi -> lo <= y1 <= hi ->
  lo <= (y1 - y0) / (x1 - x0) * (x - x0) + y0 <= hi.
Proof.
  intros Hx H0 H1.
  set (t := (x - x0) / (x1 - x0)).
  assert (Ht : 0 <= t <= 1).
  { unfold t. split.
    - unfold Rdiv. apply Rmult_le_pos; [lra | left; apply Rinv_0_lt_compat; lra].
    - apply (Rmult_le_reg_r (x1 - x0)); [lra|]. unfold Rdiv.
      rewrite Rmult_assoc, Rinv_l by lra. lra. }
  replace ((y1 - y0) / (x1 - x0) * (x - x0) + y0) with ((1 - t) * y0 + t * y1)
    by (unfold t; field; lra).
  assert (0 <= (1 - t) * (y0 - lo)) by (apply Rmult_le_pos; lra).
  assert (0 <= t * (y1 - lo)) by (apply Rmult_le_pos; lra).
  assert (0 <= (1 - t) * (hi - y0)) by (apply Rmult_le_pos; lra).
  assert (0 <= t * (hi - y1)) by (apply Rmult_le_pos; lra).
  split; nra.
Qed.

(** [interp_segment] returns a sample value or a value on a segment from a
    sample point at or left of [x]: it stays within any bounds of [fp]. *)
Lemma interp_segment_between (x lo hi : R) (xp fp : list R) :
  fp <> [] -> Forall (fun y => lo <= y <= hi) fp ->
  (forall x0 xr, xp = x0 :: xr -> x0 <= x) ->
  lo <= interp_segment x xp fp <= hi.
Proof.
  revert fp. induction xp as [|x0 xr IH]; intros fp Hne Hfp Hhead.
  - destruct fp as [|y0 yr]; [contradiction|]. inversion Hfp; assumption.
  - destruct fp as [|y0 yr]; [contradiction|].
    inversion Hfp as [|? ? Hy0 Hyr]; subst.
    pose proof (Hhead x0 xr eq_refl) as Hx0.
    destruct xr as [|x1 xr']; [exact Hy0|].
    destruct yr as [|y1 yr']; [exact Hy0|].
    change (interp_segment x (x0 :: x1 :: xr') (y0 :: y1 :: yr')) with
      (if Rlt_dec x x1 then
         (if Req_EM_T x0 x then y0 else (y1 - y0) / (x1 - x0) * (x - x0) + y0)
       else interp_segment x (x1 :: xr') (y1 :: yr')).
    inversion Hyr as [|? ? Hy1 _]; subst.
    destruct (Rlt_dec x x1) as [Hlt|Hge].
    + destruct (Req_EM_T x0 x) as [_|Hneq]; [exact Hy0|].
      apply lerp_between; [lra | exact Hy0 | exact Hy1].
    + apply IH; [discriminate | exact Hyr |].
      intros x' xr'' [= <- _]. lra.
Qed.

Lemma np_interp_between (x lo hi : R) (xp fp : list R) (v : R) :
  Forall (fun y => lo <= y <= hi) fp -> np_interp x xp fp = Some v -> lo <= v <= hi.
Proof.
  intros Hfp H. unfold np_interp in H.
  destruct xp as [|x0 xr]; [discriminate|].
  destruct fp as [|y0 yr]; [discriminate|].
  inversion Hfp as [|? ? Hy0 _]; subst.
  destruct (decide _); [|discriminate].
  destruct (Rlt_dec x x0); [injection H as <-; exact Hy0|].
  destruct (Rlt_dec _ x).
  - assert (Hv : v = List.last (y0 :: yr) y0) by congruence. subst v.
    exact (Forall_last (fun y => lo <= y <= hi) (y0 :: yr) y0 Hfp Hy0).
  - assert (Hv : v = interp_segment x (x0 :: xr) (y0 :: yr)) by congruence. subst v.
    apply interp_segment_between; [discriminate | exact Hfp |].
    intros x0' xr' [= <- _]. lra.
Qed.

(** [ImageSettings.maximum_magnitude] is numpy's maximum. *)
Lemma maximum_magnitude_np_max (l : list R) : maximum_magnitude l = np_max l.
Proof. destruct l; reflexivity. Qed.

(** X5 *)
(** Every entry of the dense lookup built by [magnitude_mapping] lies
    between the smallest magnitude value and [maximum_magnitude]: the
    threshold applied at any time of day is never fainter than the
    maximum magnitude of the configuration. *)
Theorem magnitude_mapping_within_maximum (mv : list R) (mti : list (R * nat))
    (mapping : list R) (lo hi : R) :
  magnitude_mapping mv mti = Some mapping ->
  np_min mv = Some lo -> maximum_magnitude mv = Some hi ->
  Forall (fun v => lo <= v <= hi) mapping.
Proof.
  intros Hm Hlo Hhi.
  rewrite maximum_magnitude_np_max in Hhi.
  apply np_min_spec in Hlo as [_ Hlo]. apply np_max_spec in Hhi as [_ Hhi].
  destruct (mapM (fun '(_, index) => mv !! index) mti) as [fp|] eqn:Hfp.
  2:{ unfold magnitude_mapping in Hm. rewrite Hfp in Hm. discriminate. }
  rewrite (magnitude_mapping_Some _ _ _ Hfp) in Hm.
  assert (Hfpb : Forall (fun y => lo <= y <= hi) fp).
  { apply mapM_Some_1 in Hfp.
    apply Forall_forall. intros y Hy.
    apply list_elem_of_lookup_1 in Hy as [k Hk].
    destruct (Forall2_lookup_r _ _ _ _ _ Hfp Hk) as ([hr index] & _ & Hidx).
    apply list_elem_of_lookup_2, list_elem_of_In in Hidx.
    split; [apply Hlo | apply Hhi]; exact Hidx. }
  apply mapM_Some_1 in Hm.
  apply Forall_forall. intros v Hv.
  apply list_elem_of_lookup_1 in Hv as [k Hk].
  destruct (Forall2_lookup_r _ _ _ _ _ Hm Hk) as (p & _ & Hp).
  exact (np_interp_between _ _ _ _ _ _ Hfpb Hp).
Qed.

Lemma magnitude_mapping_within_maximum_witness :
  exists mapping, magnitude_mapping [5; 3] [(6, 0%nat); (18, 1%nat)] = Some mapping /\
    np_min [5; 3] = Some 3 /\ maximum_magnitude [5; 3] = Some 5 /\
    Forall (fun v => 3 <= v <= 5) mapping.
Proof.
  destruct (magnitude_mapping_is_Some [5; 3] [(6, 0%nat); (18, 1%nat)]) as (mapping & Hm & _).
  { discriminate. }
  { intros hr index [H|[H|[]]]; injection H as _ <-; simpl; lia. }
  assert (Hlo : np_min [5; 3] = Some 3).
  { simpl. unfold Rmin. destruct (Rle_dec 5 3); [lra | reflexivity]. }
  assert (Hhi : maximum_magnitude [5; 3] = Some 5).
  { simpl. unfold Rmax. destruct (Rle_dec 5 3); [lra | reflexivity]. }
  exists mapping. split; [exact Hm|]. split; [exact Hlo|]. split; [exact Hhi|].
  exact (magnitude_mapping_within_maximum _ _ mapping 3 5 Hm Hlo Hhi).
Defined.

(** ** Frames and snapshot times *)

Lemma total_seconds_pos (td : Z) : 0 < total_seconds td <-> (0 < td)%Z.
Proof.
  unfold total_seconds. split; intros H.
  - apply lt_IZR. apply (Rmult_lt_reg_r (/ 1000000)); [lra|]. lra.
  - apply IZR_lt in H. unfold Rdiv. apply Rmult_lt_0_compat; lra.
Qed.

(** [int(duration / snapshot_frequency)] is the integer quotient. *)
Lemma py_int_quotient (d f : Z) :
  (0 < f)%Z -> (0 <= d)%Z -> py_int (IZR d / IZR f) = (d / f)%Z.
Proof.
  intros Hf Hd.
  pose proof (Z.div_mod d f ltac:(lia)) as Hdm.
  pose proof (Z.mod_pos_bound d f Hf) as Hr.
  assert (Hq : (0 <= d / f)%Z) by (apply Z.div_pos; lia).
  set (q := (d / f)%Z) in *. set (r := (d mod f)%Z) in *.
  apply IZR_lt in Hf. apply IZR_le in Hq.
  assert (Hr0 : (0 <= IZR r)%R) by (apply IZR_le; lia).
  assert (Hr1 : (IZR r < IZR f)%R) by (apply IZR_lt; lia).
  assert (HdR : IZR d = IZR f * IZR q + IZR r) by (rewrite Hdm, plus_IZR, mult_IZR; reflexivity).
  assert (Hsplit : IZR d / IZR f = IZR q + IZR r / IZR f) by (rewrite HdR; field; lra).
  assert (Hfr : 0 <= IZR r / IZR f < 1).
  { split.
    - unfold Rdiv. apply Rmult_le_pos; [lra | left; apply Rinv_0_lt_compat; lra].
    - apply (Rmult_lt_reg_r (IZR f)); [lra|]. unfold Rdiv.
      rewrite Rmult_assoc, Rinv_l by lra. lra. }
  unfold py_int. rewrite Hsplit.
  destruct (Rle_dec 0 _) as [_|Hn]; [|lra].
  apply Int_part_unique. lra.
Qed.

(** X6 *)
(** For a positive snapshot interval that passes [compare_timespans],
    [frames] is the integer quotient [duration // snapshot_frequency], at
    least 1, and [observation_times] lists that many times, spaced by the
    interval from the start, all within [[start, start + duration -
    interval]]: the first time not taken, [start + interval * frames],
    falls in the last interval of the observation. *)
Theorem observation_times_span (start_datetime snapshot_frequency duration : Z) :
  (0 < snapshot_frequency)%Z ->
  compare_timespans snapshot_frequency duration = Some tt ->
  let frames := settings_frames snapshot_frequency duration in
  frames = (duration / snapshot_frequency)%Z /\ (1 <= frames)%Z /\
  (duration - snapshot_frequency < snapshot_frequency * frames <= duration)%Z /\
  length (observation_times start_datetime snapshot_frequency frames) = Z.to_nat frames /\
  (forall i t, observation_times start_datetime snapshot_frequency frames !! i = Some t ->
     t = (start_datetime + snapshot_frequency * Z.of_nat i)%Z /\
     (start_datetime <= t <= start_datetime + duration - snapshot_frequency)%Z).
Proof.
  intros Hf Hc frames.
  unfold compare_timespans in Hc.
  destruct (Z.ltb duration snapshot_frequency) eqn:Hlt; [discriminate|].
  apply Z.ltb_ge in Hlt.
  assert (Hn : frames = (duration / snapshot_frequency)%Z).
  { unfold frames, settings_frames.
    destruct (Rlt_dec 0 _) as [_|Hn].
    - apply py_int_quotient; lia.
    - exfalso. apply Hn. apply total_seconds_pos. exact Hf. }
  assert (H1 : (1 <= frames)%Z).
  { rewrite Hn. apply Z.div_le_lower_bound; lia. }
  pose proof (Z.div_mod duration snapshot_frequency ltac:(lia)) as Hdm.
  pose proof (Z.mod_pos_bound duration snapshot_frequency Hf) as Hr.
  assert (Hb : (duration - snapshot_frequency < snapshot_frequency * frames <= duration)%Z)
    by (rewrite Hn; lia).
  split; [exact Hn|]. split; [exact H1|]. split; [exact Hb|].
  split.
  { unfold observation_times. rewrite List.length_map, length_seq. reflexivity. }
  intros i t Ht.
  unfold observation_times in Ht.
  rewrite map_as_fmap, list_lookup_fmap in Ht.
  destruct (seq 0 (Z.to_nat frames) !! i) as [j|] eqn:Hj; [|discriminate].
  apply lookup_seq in Hj as [-> Hi]. injection Ht as <-.
  split; [reflexivity|]. nia.
Qed.

Lemma observation_times_span_witness :
  (0 < 600000000)%Z /\ compare_timespans 600000000 3600000000 = Some tt /\
  settings_frames 600000000 3600000000 = 6%Z /\
  length (observation_times 0 600000000 (settings_frames 600000000 3600000000)) = 6%nat.
Proof.
  assert (Hf : (0 < 600000000)%Z) by lia.
  assert (Hc : compare_timespans 600000000 3600000000 = Some tt) by reflexivity.
  destruct (observation_times_span 0 600000000 3600000000 Hf Hc) as (Hn & _ & _ & Hlen & _).
  split; [exact Hf|]. split; [exact Hc|].
  split; [rewrite Hn; reflexivity|]. rewrite Hlen, Hn. reflexivity.
Defined.

(** ** Times of day as timedeltas *)

(** X8 *)
(** [time_to_timedelta] maps the valid times of day one-to-one into
    [[0, 24 h)], and its seconds exceed [get_seconds_from_midnight] of the
    same time by exactly the [second] field, which the latter leaves out. *)
Theorem time_to_timedelta_clock (t t' : datetime) :
  valid_clock t -> valid_clock t' ->
  (0 <= time_to_timedelta t < 24 * 3600 * 1000000)%Z /\
  (time_to_timedelta t = time_to_timedelta t' -> t = t') /\
  total_seconds (time_to_timedelta t) = get_seconds_from_midnight t + INR (second t).
Proof.
  intros (Hh & Hm & Hs & Hu) (Hh' & Hm' & Hs' & Hu').
  split; [unfold time_to_timedelta; lia|].
  split.
  - unfold time_to_timedelta. intros Heq.
    destruct t as [h m s u], t' as [h' m' s' u']; simpl in *.
    assert (h = h') by lia. assert (m = m') by lia.
    assert (s = s') by lia. assert (u = u') by lia. subst. reflexivity.
  - unfold total_seconds, time_to_timedelta, get_seconds_from_midnight.
    rewrite !plus_IZR, !mult_IZR, <- !INR_IZR_INZ. field.
Qed.

Lemma time_to_timedelta_clock_witness :
  valid_clock (mk_datetime 21 30 15 0) /\ valid_clock (mk_datetime 21 30 16 0) /\
  (0 <= time_to_timedelta (mk_datetime 21 30 15 0) < 24 * 3600 * 1000000)%Z.
Proof.
  assert (H1 : valid_clock (mk_datetime 21 30 15 0)) by (unfold valid_clock; simpl; lia).
  assert (H2 : valid_clock (mk_datetime 21 30 16 0)) by (unfold valid_clock; simpl; lia).
  split; [exact H1|]. split; [exact H2|].
  exact (proj1 (time_to_timedelta_clock _ _ H1 H2)).
Defined.

Lemma magnitude_to_flux_pogson_witness :
  magnitude_to_flux 2 < magnitude_to_flux 1 /\
  magnitude_to_flux (1 + 5) = magnitude_to_flux 1 / 100.
Proof.
  destruct (magnitude_to_flux_pogson 1) as (_ & Hdec & H5).
  split; [apply Hdec; lra | exact H5].
Defined.

(** ** Names of the temporary frame files *)

Lemma length_string_append (s1 s2 : string) :
  String.length (String.append s1 s2) = (String.length s1 + String.length s2)%nat.
Proof. induction s1 as [|c s1 IH]; simpl; [reflexivity | rewrite IH; reflexivity]. Qed.

Lemma length_zeros (n : nat) :
  String.length (String.concat EmptyString (List.repeat "0"%string n)) = n.
Proof.
  induction n as [|n IH]; [reflexivity|].
  destruct n as [|n]; [reflexivity|].
  change (String.concat EmptyString (List.repeat "0"%string (S (S n)))) with
    (String.append "0" (String.append EmptyString
       (String.concat EmptyString (List.repeat "0"%string (S n))))).
  rewrite !length_string_append, IH. reflexivity.
Qed.

(** [zfill] pads up to the width and never cuts. *)
Lemma length_zfill (s : string) (width : Z) :
  (String.length s <= Z.to_nat width)%nat ->
  String.length (zfill s width) = Z.to_nat width.
Proof.
  intros H. unfold zfill. rewrite length_string_append, length_zeros. lia.
Qed.

(** A number below [10 ^ k] has at most [k] digits. *)
Lemma length_py_str_nat_aux (fuel n k : nat) (acc : string) :
  (n < 10 ^ k)%nat -> (1 <= k)%nat -> (n < fuel)%nat ->
  (String.length (py_str_nat_aux fuel n acc) <= k + String.length acc)%nat.
Proof.
  revert n k acc. induction fuel as [|fuel IH]; intros n k acc Hk H1 Hf; [lia|].
  simpl. destruct (Nat.ltb n 10) eqn:Hlt.
  - simpl. lia.
  - apply Nat.ltb_ge in Hlt.
    destruct k as [|k]; [lia|].
    destruct k as [|k]; [simpl in Hk; lia|].
    assert (Hd : (n / 10 < 10 ^ S k)%nat).
    { apply Nat.Div0.div_lt_upper_bound. rewrite Nat.pow_succ_r' in Hk. lia. }
    assert (Hdf : (n / 10 < fuel)%nat).
    { assert (n / 10 < n)%nat by (apply Nat.div_lt; lia). lia. }
    specialize (IH (n / 10)%nat (S k) (String (Ascii.ascii_of_nat (48 + n mod 10)%nat) acc)
                  Hd ltac:(lia) Hdf).
    simpl in IH. lia.
Qed.

Lemma length_py_str_nat (n k : nat) :
  (n < 10 ^ k)%nat -> (1 <= k)%nat -> (String.length (py_str_nat n) <= k)%nat.
Proof.
  intros Hk H1. unfold py_str_nat.
  pose proof (length_py_str_nat_aux (S n) n k EmptyString Hk H1 ltac:(lia)) as H.
  change (String.length EmptyString) with 0%nat in H. lia.
Qed.

(** [10 ** ceil(log10(frames))] is at least [frames], and the exponent is
    at least 1 from two frames on. *)
Lemma tempfile_zfill_bound (frames : nat) :
  (2 <= frames)%nat ->
  (1 <= tempfile_zfill frames)%Z /\ (frames <= 10 ^ Z.to_nat (tempfile_zfill frames))%nat.
Proof.
  intros H2.
  assert (Hf : 2 <= INR frames) by (replace 2 with (INR 2) by reflexivity; apply le_INR; exact H2).
  assert (Hl10 : 0 < ln 10) by (rewrite <- ln_1; apply ln_increasing; lra).
  assert (Hlog : 0 < log10 (INR frames)).
  { unfold log10. apply Rdiv_lt_0_compat; [|exact Hl10].
    rewrite <- ln_1. apply ln_increasing; lra. }
  pose proof (Int_part_bounds (- log10 (INR frames))) as [Hb1 Hb2].
  assert (Hc1 : (1 <= tempfile_zfill frames)%Z).
  { unfold tempfile_zfill, np_ceil.
    assert (IZR (Int_part (- log10 (INR frames))) < IZR 0) by (simpl; lra).
    apply lt_IZR in H. lia. }
  split; [exact Hc1|].
  set (c := tempfile_zfill frames) in *.
  assert (Hc : log10 (INR frames) <= IZR c).
  { unfold c, tempfile_zfill, np_ceil. rewrite opp_IZR. lra. }
  assert (Hpow : INR frames = Rpower 10 (log10 (INR frames))).
  { unfold Rpower, log10. replace (ln (INR frames) / ln 10 * ln 10) with (ln (INR frames))
      by (field; lra).
    rewrite exp_ln; [reflexivity | lra]. }
  apply INR_le. rewrite pow_INR, Hpow.
  replace (INR 10) with 10 by (simpl; lra).
  rewrite <- Rpower_pow by lra.
  apply Rle_Rpower; [lra|].
  rewrite (INR_IZR_INZ (Z.to_nat c)), Z2Nat.id by lia. exact Hc.
Qed.

(** X10 *)
(** From two frames on, every frame index [0 <= i < frames] is written as
    exactly [tempfile_zfill] digits (then [TEMPFILE_SUFFIX]): no index is
    wider than the padding, so all names have the width that ffmpeg's
    [%0{tempfile_zfill}d] input pattern reads. *)
Theorem tempfile_name_width (frames frame_index : nat) :
  (2 <= frames)%nat -> (frame_index < frames)%nat ->
  (1 <= tempfile_zfill frames)%Z /\
  String.length (zfill (py_str_nat frame_index) (tempfile_zfill frames))
    = Z.to_nat (tempfile_zfill frames) /\
  tempfile_name (tempfile_zfill frames) frame_index
    = String.append (zfill (py_str_nat frame_index) (tempfile_zfill frames)) ".png".
Proof.
  intros H2 Hi.
  destruct (tempfile_zfill_bound frames H2) as [Hc1 Hpow].
  split; [exact Hc1|]. split; [|reflexivity].
  apply length_zfill, length_py_str_nat; lia.
Qed.

Lemma tempfile_name_width_witness :
  (2 <= 120)%nat /\ (7 < 120)%nat /\
  String.length (zfill (py_str_nat 7) (tempfile_zfill 120)) = Z.to_nat (tempfile_zfill 120).
Proof.
  split; [lia|]. split; [lia|].
  exact (proj1 (proj2 (tempfile_name_width 120 7 ltac:(lia) ltac:(lia)))).
Defined.

(** ** The output size of the movie *)

Lemma np_ceil_bounds (x : R) : IZR (np_ceil x) - 1 < x <= IZR (np_ceil x).
Proof.
  unfold np_ceil. rewrite opp_IZR.
  pose proof (Int_part_bounds (- x)). lra.
Qed.

(** X11 *)
(** The side length [construct_ffmpeg_call] scales and pads the movie to
    is the smallest even integer at least [max(figure_size) * dpi]. *)
Theorem ffmpeg_output_pixels_least_even (figure_size : R * R) (dpi : Z) :
  let x := Rmax figure_size.1 figure_size.2 * IZR dpi in
  Z.even (ffmpeg_output_pixels figure_size dpi) = true /\
  x <= IZR (ffmpeg_output_pixels figure_size dpi) < x + 2 /\
  (forall e, Z.even e = true -> x <= IZR e -> (ffmpeg_output_pixels figure_size dpi <= e)%Z).
Proof.
  intros x.
  unfold ffmpeg_output_pixels. fold x.
  pose proof (np_ceil_bounds x) as [Hc1 Hc2].
  set (c := np_ceil x) in *.
  assert (Hge : forall e, x <= IZR e -> (c <= e)%Z).
  { intros e He. assert (IZR c - 1 < IZR e) by lra.
    rewrite <- minus_IZR in H. apply lt_IZR in H. lia. }
  assert (Hr : (c <= (if negb (Z.eqb (c mod 2) 0) then c + 1 else c) <= c + 1)%Z /\
               ((if negb (Z.eqb (c mod 2) 0) then c + 1 else c) mod 2 = 0)%Z /\
               (forall e, (e mod 2 = 0)%Z -> (c <= e)%Z ->
                  ((if negb (Z.eqb (c mod 2) 0) then c + 1 else c) <= e)%Z)).
  { pose proof (Z.mod_pos_bound c 2 ltac:(lia)). pose proof (Z.div_mod c 2 ltac:(lia)).
    pose proof (Z.mod_pos_bound (c + 1) 2 ltac:(lia)).
    pose proof (Z.div_mod (c + 1) 2 ltac:(lia)).
    destruct (Z.eqb (c mod 2) 0) eqn:Hm; cbn [negb];
      [apply Z.eqb_eq in Hm | apply Z.eqb_neq in Hm];
      (split; [lia | split; [lia | intros e He Hce]]).
    - lia.
    - pose proof (Z.div_mod e 2 ltac:(lia)). lia. }
  set (r := if negb (Z.eqb (c mod 2) 0) then (c + 1)%Z else c) in *.
  destruct Hr as ([Hr1 Hr2] & Hr3 & Hr4).
  split; [|split].
  - apply Z.even_spec. exists (r / 2)%Z. pose proof (Z.div_mod r 2 ltac:(lia)). lia.
  - apply IZR_le in Hr1. apply IZR_le in Hr2. rewrite plus_IZR in Hr2. lra.
  - intros e He Hxe. apply Z.even_spec in He as [m ->].
    apply Hr4; [rewrite Z.mul_comm; apply Z.mod_mul; lia | apply Hge; exact Hxe].
Qed.

Lemma ffmpeg_output_pixels_least_even_witness :
  ffmpeg_output_pixels (6.4, 4.8) 100 = 640%Z /\
  Z.even (ffmpeg_output_pixels (6.4, 4.8) 100) = true.
Proof.
  assert (Hx : Rmax (6.4, 4.8).1 (6.4, 4.8).2 * IZR 100 = 640).
  { simpl. unfold Rmax. destruct (Rle_dec _ _); lra. }
  destruct (ffmpeg_output_pixels_least_even (6.4, 4.8) 100) as (Hev & [H1 H2] & Hmin).
  rewrite Hx in H1, H2, Hmin.
  assert (Hle : (ffmpeg_output_pixels (6.4, 4.8)%R 100 <= 640)%Z)
    by (apply Hmin; [reflexivity | lra]).
  assert (Hge : (640 <= ffmpeg_output_pixels (6.4, 4.8)%R 100)%Z) by (apply le_IZR; exact H1).
  split; [lia | exact Hev].
Defined.

(** ** Spectral types *)

Lemma rev_seq_S (n : nat) : rev (seq 1 (S n)) = S n :: rev (seq 1 n).
Proof. rewrite seq_S, rev_app_distr. reflexivity. Qed.

(** Searching [range(n, 0, -1)] finds the largest index that passes. *)
Lemma find_rev_seq_Some (f : nat -> bool) (n i : nat) :
  List.find f (rev (seq 1 n)) = Some i ->
  (1 <= i <= n)%nat /\ f i = true /\ forall j, (i < j <= n)%nat -> f j = false.
Proof.
  induction n as [|n IH]; [discriminate|].
  rewrite rev_seq_S. simpl. destruct (f (S n)) eqn:Hf.
  - intros [= <-]. split; [lia|]. split; [exact Hf | intros j Hj; lia].
  - intros Hfind. destruct (IH Hfind) as (Hi & Hfi & Hj).
    split; [lia|]. split; [exact Hfi|].
    intros j Hij. destruct (decide (j = S n)) as [->|Hne]; [exact Hf | apply Hj; lia].
Qed.

Lemma find_rev_seq_None (f : nat -> bool) (n : nat) :
  List.find f (rev (seq 1 n)) = None -> forall j, (1 <= j <= n)%nat -> f j = false.
Proof.
  intros Hfind j Hj. apply (find_none f _ Hfind).
  apply in_rev. rewrite rev_involutive. apply in_seq. lia.
Qed.

(** X12 *)
(** [get_single_spectral_type] returns the longest non-empty prefix of the
    spectral type that is acceptable, or the fallback when no non-empty
    prefix is (in particular for the empty spectral type). *)
Theorem get_single_spectral_type_longest (spectral_type : string)
    (acceptable_types : list string) :
  let r := get_single_spectral_type spectral_type acceptable_types in
  (r = FALLBACK_SPECTRAL_TYPE /\
   forall i, (1 <= i <= String.length spectral_type)%nat ->
     String.substring 0 i spectral_type ∉ acceptable_types) \/
  (exists i, (1 <= i <= String.length spectral_type)%nat /\
     r = String.substring 0 i spectral_type /\ r ∈ acceptable_types /\
     forall j, (i < j <= String.length spectral_type)%nat ->
       String.substring 0 j spectral_type ∉ acceptable_types).
Proof.
  unfold get_single_spectral_type.
  destruct (decide (String.length spectral_type = 0%nat)) as [H0|H0].
  { left. split; [reflexivity | intros i Hi; lia]. }
  destruct (List.find _ _) as [i|] eqn:Hfind.
  - right. apply find_rev_seq_Some in Hfind as (Hi & Hfi & Hj).
    exists i. split; [exact Hi|]. split; [reflexivity|].
    split; [apply bool_decide_eq_true in Hfi; exact Hfi|].
    intros j Hij. apply (bool_decide_eq_false _). apply Hj. exact Hij.
  - left. split; [reflexivity|].
    intros i Hi. apply (bool_decide_eq_false _).
    exact (find_rev_seq_None _ _ Hfind i Hi).
Qed.

Lemma get_spectral_types_spec (object_colours : gmap string (list R)) (s : string) :
  s ∈ get_spectral_types object_colours <->
  s <> FALLBACK_SPECTRAL_TYPE /\ (s ∉ SOLARSYSTEM_BODIES_names) /\ is_Some (object_colours !! s).
Proof.
  unfold get_spectral_types.
  rewrite !list_elem_of_filter, map_as_fmap, list_elem_of_fmap.
  split.
  - intros (Hf & Hp & ([k c] & -> & Hkc)). simpl in *.
    apply elem_of_map_to_list in Hkc. split; [exact Hf|]. split; [exact Hp|]. exists c. exact Hkc.
  - intros (Hf & Hp & [c Hc]). split; [exact Hf|]. split; [exact Hp|].
    exists (s, c). split; [reflexivity|]. apply elem_of_map_to_list. exact Hc.
Qed.

(** X13 *)
(** After [simplify_spectral_types] with the types of [get_spectral_types],
    every spectral type is the fallback or a key of [object_colours] that
    is not a planet name; so when the colours give a "fallback" entry,
    every star finds its colour in [prepare_object_table]. *)
Theorem simplify_spectral_types_colour_keys (object_colours : gmap string (list R))
    (star_table : list CatRow) :
  let simplified :=
    simplify_spectral_types star_table (get_spectral_types object_colours) in
  Forall (fun r => cat_spectral_type r = FALLBACK_SPECTRAL_TYPE \/
                   ((cat_spectral_type r ∉ SOLARSYSTEM_BODIES_names) /\
                    is_Some (object_colours !! cat_spectral_type r))) simplified /\
  (is_Some (object_colours !! FALLBACK_SPECTRAL_TYPE) ->
   is_Some (mapM (fun r => object_colours !! cat_spectral_type r) simplified)).
Proof.
  intros simplified.
  assert (Hall : Forall (fun r => cat_spectral_type r = FALLBACK_SPECTRAL_TYPE \/
                   ((cat_spectral_type r ∉ SOLARSYSTEM_BODIES_names) /\
                    is_Some (object_colours !! cat_spectral_type r))) simplified).
  { unfold simplified, simplify_spectral_types. apply List.Forall_map.
    apply List.Forall_forall. intros r _. simpl.
    destruct (get_single_spectral_type_longest (cat_spectral_type r)
                (get_spectral_types object_colours)) as [[-> _]|(i & _ & -> & Hin & _)].
    - left. reflexivity.
    - right. apply get_spectral_types_spec in Hin as (_ & Hp & Hk). split; assumption. }
  split; [exact Hall|].
  intros Hfb. apply mapM_is_Some_2.
  eapply Forall_impl; [exact Hall|].
  intros r [Hr|[_ Hr]]; unfold compose; [rewrite Hr; exact Hfb | exact Hr].
Qed.

Lemma simplify_spectral_types_colour_keys_witness :
  is_Some (({[ "fallback"%string := [1; 1; 1]; "G"%string := [1; 1; 0.5] ]}
             : gmap string (list R)) !! FALLBACK_SPECTRAL_TYPE) /\
  is_Some (mapM (fun r => ({[ "fallback"%string := [1; 1; 1]; "G"%string := [1; 1; 0.5] ]}
                             : gmap string (list R)) !! cat_spectral_type r)
             (simplify_spectral_types [mk_cat 0 0 5 "G2V"; mk_cat 1 1 6 "M"]
                (get_spectral_types {[ "fallback"%string := [1; 1; 1];
                                       "G"%string := [1; 1; 0.5] ]}))).
Proof.
  assert (Hfb : is_Some (({[ "fallback"%string := [1; 1; 1]; "G"%string := [1; 1; 0.5] ]}
             : gmap string (list R)) !! FALLBACK_SPECTRAL_TYPE)).
  { eexists. reflexivity. }
  split; [exact Hfb|].
  exact (proj2 (simplify_spectral_types_colour_keys _ [mk_cat 0 0 5 "G2V"; mk_cat 1 1 6 "M"]) Hfb).
Defined.

(** ** Nested configuration keys *)

Lemma string_concat_cons (sep p : string) (ps : list string) :
  String.concat sep (p :: ps) =
  match ps with [] => p | _ => String.append p (String.append sep (String.concat sep ps)) end.
Proof. destruct ps; reflexivity. Qed.

Lemma py_str_split_nonempty (sep : Ascii.ascii) (s : string) : py_str_split sep s <> [].
Proof.
  destruct s as [|c rest]; simpl; [discriminate|].
  destruct (decide (c = sep)); [discriminate|].
  destruct (py_str_split sep rest); discriminate.
Qed.

(** Joining the pieces with the separator gives the string back, and no
    piece holds the separator. *)
Lemma py_str_split_join (sep : Ascii.ascii) (s : string) :
  String.concat (String sep EmptyString) (py_str_split sep s) = s /\
  Forall (fun piece => sep ∉ String.list_ascii_of_string piece) (py_str_split sep s).
Proof.
  induction s as [|c rest [IHc IHf]].
  - split; [reflexivity|]. constructor; [intros Hin; inversion Hin | constructor].
  - pose proof (py_str_split_nonempty sep rest) as Hne.
    change (py_str_split sep (String c rest)) with
      (if decide (c = sep) then EmptyString :: py_str_split sep rest
       else match py_str_split sep rest with
            | p :: ps => String c p :: ps
            | [] => [String c EmptyString]
            end).
    destruct (py_str_split sep rest) as [|p ps]; [contradiction|].
    destruct (decide (c = sep)) as [->|Hc].
    + split.
      * rewrite string_concat_cons. cbn [String.append]. rewrite IHc. reflexivity.
      * constructor; [intros Hin; inversion Hin | exact IHf].
    + rewrite Forall_cons in IHf. destruct IHf as [Hp Hps].
      split.
      * rewrite string_concat_cons. rewrite string_concat_cons in IHc.
        destruct ps; rewrite <- IHc; reflexivity.
      * constructor; [|exact Hps].
        simpl. intros Hin. apply elem_of_cons in Hin as [Heq|Hin]; [congruence | exact (Hp Hin)].
Qed.

(** Splitting a word without the separator, followed by more text. *)
Lemma py_str_split_app (sep : Ascii.ascii) (k s : string) :
  sep ∉ String.list_ascii_of_string k ->
  py_str_split sep (String.append k s) =
  match py_str_split sep s with
  | p :: ps => String.append k p :: ps
  | [] => [k]
  end.
Proof.
  induction k as [|c k IH]; intros Hk.
  - change (String.append EmptyString s) with s.
    destruct (py_str_split sep s) eqn:Hs; [exfalso; exact (py_str_split_nonempty _ _ Hs) | reflexivity].
  - simpl. destruct (decide (c = sep)) as [->|Hc].
    + exfalso. apply Hk. simpl. left.
    + rewrite IH by (intros Hin; apply Hk; simpl; right; exact Hin).
      destruct (py_str_split sep s) as [|p ps] eqn:Hs; [|reflexivity].
      exfalso. exact (py_str_split_nonempty sep s Hs).
Qed.

Lemma string_append_cons (c : Ascii.ascii) (s t : string) :
  String.append (String c s) t = String c (String.append s t).
Proof. reflexivity. Qed.

Lemma string_append_nil_l (s : string) : String.append EmptyString s = s.
Proof. reflexivity. Qed.

Lemma string_append_empty_r (s : string) : String.append s EmptyString = s.
Proof.
  induction s as [|c s IH]; [reflexivity|]. rewrite string_append_cons, IH. reflexivity.
Qed.

Lemma py_str_split_concat (sep : Ascii.ascii) (keys : list string) :
  keys <> [] -> Forall (fun key => sep ∉ String.list_ascii_of_string key) keys ->
  py_str_split sep (String.concat (String sep EmptyString) keys) = keys.
Proof.
  intros Hne Hk. induction Hk as [|k ks Hk Hks IH]; [contradiction|].
  rewrite string_concat_cons.
  destruct ks as [|k' ks'].
  - rewrite <- (string_append_empty_r k) at 1.
    rewrite py_str_split_app by exact Hk. simpl. rewrite string_append_empty_r. reflexivity.
  - rewrite py_str_split_app by exact Hk.
    rewrite string_append_cons, string_append_nil_l.
    cbn [py_str_split]. rewrite decide_True by reflexivity.
    rewrite IH by discriminate. rewrite string_append_empty_r. reflexivity.
Qed.

(** X14 *)
(** [split_nested_key] and joining with "." are inverse: the pieces of a
    key are never empty as a list, joined with "." they give the key back
    and hold no "."; and a non-empty list of dot-free keys joined with "."
    splits back into that list. *)
Theorem split_nested_key_round_trip (full_key : string) (keys : list string) :
  split_nested_key full_key <> [] /\
  String.concat "." (split_nested_key full_key) = full_key /\
  Forall (fun key => "."%char ∉ String.list_ascii_of_string key) (split_nested_key full_key) /\
  (keys <> [] -> Forall (fun key => "."%char ∉ String.list_ascii_of_string key) keys ->
   split_nested_key (String.concat "." keys) = keys).
Proof.
  unfold split_nested_key.
  destruct (py_str_split_join "."%char full_key) as [Hj Hf].
  split; [apply py_str_split_nonempty|].
  split; [exact Hj|]. split; [exact Hf|].
  apply py_str_split_concat.
Qed.

Lemma split_nested_key_round_trip_witness :
  ["observation"; "viewing-radius"; "degrees"]%string <> [] /\
  split_nested_key (String.concat "." ["observation"; "viewing-radius"; "degrees"]%string)
    = ["observation"; "viewing-radius"; "degrees"]%string.
Proof.
  split; [discriminate|].
  apply (split_nested_key_round_trip EmptyString); [discriminate|].
  repeat constructor; simpl; intros Hin; repeat (apply elem_of_cons in Hin as [Hin|Hin]; [discriminate|]);
    apply elem_of_nil in Hin; exact Hin.
Defined.

(** ** Reading the TOML configuration *)

Section TomlProofs.

Variable Leaf : Type.
Variable leaf_str : Leaf -> string.

Implicit Types d : TOMLConfig Leaf.

Lemma py_getitem_walk_error (v : TomlValue Leaf) (key : string) :
  walk_error (py_getitem v key).
Proof.
  intros e. destruct v as [l|entries]; simpl.
  - intros [= <-]. right. reflexivity.
  - unfold dict_getitem. destruct (List.find _ _); intros [= <-]. left. reflexivity.
Qed.

Lemma fold_getitem_walk_error (keys : list string) (m : PyError + TomlValue Leaf) :
  walk_error m ->
  walk_error (fold_left (fun sub key => py_bind sub (fun s => py_getitem s key)) keys m).
Proof.
  revert m. induction keys as [|key keys IH]; intros m Hm; simpl; [exact Hm|].
  apply IH. destruct m as [e|v]; simpl; [exact Hm | apply py_getitem_walk_error].
Qed.

Lemma fold_getitem_inl (keys : list string) (e : PyError) :
  fold_left (fun sub key => py_bind sub (fun s => @py_getitem Leaf s key)) keys (inl e) = inl e.
Proof. induction keys as [|key keys IH]; simpl; [reflexivity | exact IH]. Qed.

Lemma rev_nil_inv {A} (l : list A) : rev l = [] -> l = [].
Proof. intros H. apply length_zero_iff_nil. rewrite <- length_rev, H. reflexivity. Qed.

(** [access_nested_dictionary] raises [KeyError] or [TypeError] only, and
    [IndexError] only for an empty key list. *)
Lemma access_nested_dictionary_errors d (keys : list string) (e : PyError) :
  access_nested_dictionary d keys = inl e -> e = KeyError \/ e = TypeError \/ keys = [].
Proof.
  unfold access_nested_dictionary.
  assert (Hw0 : walk_error (inr (TTable d))) by (intros ? [=]).
  pose proof (fold_getitem_walk_error (removelast keys) _ Hw0) as Hw.
  destruct (fold_left _ _ _) as [e'|v] eqn:Hf; simpl.
  - intros [= <-]. destruct (Hw e' eq_refl); tauto.
  - destruct (rev keys) as [|key ks] eqn:Hr.
    + intros _. right. right. apply rev_nil_inv. exact Hr.
    + intros He. destruct (py_getitem_walk_error v key e He); tauto.
Qed.

(** [check_key_exists] returns, or raises [TypeError]; nothing else. *)
Lemma check_key_exists_result d (full_key : string) :
  (exists b, check_key_exists leaf_str d full_key = inr b) \/
  check_key_exists leaf_str d full_key = inl TypeError.
Proof.
  unfold check_key_exists.
  destruct (access_nested_dictionary d (split_nested_key full_key)) as [e|v] eqn:Ha.
  - destruct (access_nested_dictionary_errors d _ e Ha) as [->|[->|Hnil]].
    + left. eexists. reflexivity.
    + right. reflexivity.
    + exfalso. exact (py_str_split_nonempty _ _ Hnil).
  - left. eexists. reflexivity.
Qed.

Lemma access_nested_dictionary_single d (key : string) :
  access_nested_dictionary d [key] = dict_getitem d key.
Proof. reflexivity. Qed.

Lemma access_nested_dictionary_step d (key : string) (keys : list string) :
  keys <> [] ->
  access_nested_dictionary d (key :: keys) =
  match dict_getitem d key with
  | inl e => inl e
  | inr (TTable d') => access_nested_dictionary d' keys
  | inr (TLeaf _) => inl TypeError
  end.
Proof.
  intros Hk. unfold access_nested_dictionary.
  destruct keys as [|k1 ks]; [congruence|].
  change (removelast (key :: k1 :: ks)) with (key :: removelast (k1 :: ks)).
  destruct (rev (k1 :: ks)) as [|k' r] eqn:Hr2.
  { exfalso. apply rev_nil_inv in Hr2. discriminate. }
  assert (Hr1 : rev (key :: k1 :: ks) = k' :: (r ++ [key])).
  { change (rev (key :: k1 :: ks)) with (rev (k1 :: ks) ++ [key]). rewrite Hr2. reflexivity. }
  rewrite Hr1.
  cbn [fold_left]. change (py_bind (inr (TTable d)) (fun s => py_getitem s key)) with (dict_getitem d key).
  destruct (dict_getitem d key) as [e|[v|d']].
  - rewrite fold_getitem_inl. reflexivity.
  - destruct (removelast (k1 :: ks)) as [|k2 ks2]; cbn [fold_left py_bind py_getitem].
    + reflexivity.
    + rewrite fold_getitem_inl. reflexivity.
  - reflexivity.
Qed.

Lemma dict_getitem_error d (key : string) (e : PyError) :
  dict_getitem d key = inl e -> e = KeyError.
Proof. unfold dict_getitem. destruct (List.find _ _); congruence. Qed.

Lemma split_nested_key_two (section opt : string) :
  "."%char ∉ String.list_ascii_of_string section ->
  "."%char ∉ String.list_ascii_of_string opt ->
  split_nested_key (String.append section (String "."%char opt)) = [section; opt].
Proof.
  intros Hs Ho. unfold split_nested_key.
  change (String.append section (String "."%char opt))
    with (String.concat (String "."%char EmptyString) [section; opt]).
  apply py_str_split_concat; [discriminate|].
  repeat constructor; assumption.
Qed.

(** A loop of checks, each passing or raising [ValueError]. *)
Lemma py_for_checks {A} (l : list A) (body : A -> PyError + unit) (P : A -> Prop) :
  Forall (fun x => (body x = inr tt \/ body x = inl ValueError) /\ (body x = inr tt <-> P x)) l ->
  (py_for l body = inr tt \/ py_for l body = inl ValueError) /\
  (py_for l body = inr tt <-> Forall P l).
Proof.
  induction l as [|x l IH]; intros Hl; simpl.
  - split; [left; reflexivity | split; constructor].
  - rewrite Forall_cons in Hl. destruct Hl as [[Hx HP] Hl].
    destruct (IH Hl) as [IH1 IH2].
    destruct Hx as [Hx|Hx]; rewrite Hx; simpl.
    + split; [exact IH1|]. rewrite Forall_cons, IH2. split; [|tauto].
      intros H. split; [apply HP; exact Hx | exact H].
    + split; [right; reflexivity|]. split; [discriminate|].
      rewrite Forall_cons. intros [Hp _]. apply HP in Hp. congruence.
Qed.

Lemma py_map_inr {A B} (f : A -> PyError + B) (l : list A) :
  Forall (fun x => exists b, f x = inr b) l ->
  exists bs, py_map f l = inr bs /\ Forall2 (fun x b => f x = inr b) l bs.
Proof.
  induction l as [|x l IH]; intros Hl; simpl.
  - exists []. split; [reflexivity | constructor].
  - rewrite Forall_cons in Hl. destruct Hl as [[b Hb] Hl].
    destruct (IH Hl) as [bs [Hbs Hf]].
    exists (b :: bs). rewrite Hb, Hbs. split; [reflexivity | constructor; assumption].
Qed.

Lemma existsb_Forall2 {A} (g : A -> PyError + bool) (l : list A) (bs : list bool) :
  Forall2 (fun x b => g x = inr b) l bs ->
  (existsb (fun b : bool => b) bs = true <-> Exists (fun x => g x = inr true) l) /\
  (existsb (fun b : bool => b) bs = false <-> Forall (fun x => g x = inr false) l) /\
  (forallb (fun b : bool => b) bs = true <-> Forall (fun x => g x = inr true) l).
Proof.
  induction 1 as [|x b l bs Hx Hf IH]; simpl.
  - split; [|split]; split; intros H; try discriminate; try constructor; try reflexivity.
    inversion H.
  - destruct IH as [IH1 [IH2 IH3]].
    rewrite Exists_cons, !Forall_cons, Hx.
    destruct b; simpl.
    + split; [|split].
      * split; [intros _; left; reflexivity | reflexivity].
      * split; [discriminate | intros [H _]; congruence].
      * rewrite IH3. split; [intros H; split; [reflexivity | exact H] | intros [_ H]; exact H].
    + split; [|split].
      * rewrite IH1. split; [intros H; right; exact H | intros [H|H]; [congruence | exact H]].
      * rewrite IH2. split; [intros H; split; [reflexivity | exact H] | intros [_ H]; exact H].
      * split; [discriminate | intros [H _]; congruence].
Qed.

(** X15 *)
(** [get_config_option] for a [section.opt] key: the user's value
    when the user's table [section] holds a non-empty [opt], the default
    configuration's value (at [default_key] when given) when the section or
    the option is missing or empty, and [TypeError] when [section] is a
    scalar of the user's file. *)
Theorem get_config_option_section_option d (default_config : TOMLConfig Leaf)
    (section opt : string) (default_key : option string) :
  "."%char ∉ String.list_ascii_of_string section ->
  "."%char ∉ String.list_ascii_of_string opt ->
  let toml_key := String.append section (String "."%char opt) in
  let fallback :=
    access_nested_dictionary default_config
      (split_nested_key (match default_key with None => toml_key | Some k => k end)) in
  get_config_option leaf_str d toml_key default_config default_key =
  match dict_getitem d section with
  | inr (TTable sub) =>
      match dict_getitem sub opt with
      | inr value => if py_str_nonempty leaf_str value then inr value else fallback
      | inl _ => fallback
      end
  | inr (TLeaf _) => inl TypeError
  | inl _ => fallback
  end.
Proof.
  intros Hs Ho toml_key fallback.
  unfold get_config_option, check_key_exists. subst toml_key.
  rewrite (split_nested_key_two section opt Hs Ho).
  rewrite access_nested_dictionary_step by discriminate.
  destruct (dict_getitem d section) as [e|[v|sub]] eqn:Hd.
  - rewrite (dict_getitem_error d section e Hd). reflexivity.
  - reflexivity.
  - rewrite access_nested_dictionary_single.
    destruct (dict_getitem sub opt) as [e|value] eqn:Hsub.
    + rewrite (dict_getitem_error sub opt e Hsub). reflexivity.
    + cbn [py_bind]. destruct (py_str_nonempty leaf_str value); reflexivity.
Qed.

(** X16 *)
(** When the user's [observation] entry is a scalar rather than a
    table, [check_mandatory_toml_keys] raises [TypeError], not the
    [ValueError] its docstring lists. *)
Theorem check_mandatory_toml_keys_scalar_observation d (v : Leaf) :
  dict_getitem d "observation" = inr (TLeaf v) ->
  check_mandatory_toml_keys leaf_str d = inl TypeError.
Proof.
  intros Hd. unfold check_mandatory_toml_keys.
  change mandatory_keys with ("observation.location"%string :: tl mandatory_keys).
  cbn [py_for].
  unfold check_key_exists.
  change (split_nested_key "observation.location") with ["observation"; "location"]%string.
  rewrite access_nested_dictionary_step by discriminate. rewrite Hd.
  reflexivity.
Qed.

(** X17 *)
(** When none of its lookups raises [TypeError],
    [check_mandatory_toml_keys] either passes or raises [ValueError], and it
    passes exactly when every mandatory key is given, each one-or-more group
    has a given key, and each all-or-none group is given entirely or not at
    all. *)
Theorem check_mandatory_toml_keys_spec d :
  Forall (fun key => check_key_exists leaf_str d key <> inl TypeError)
    (mandatory_keys ++ concat one_or_more_keys ++ concat all_or_none_keys) ->
  (check_mandatory_toml_keys leaf_str d = inr tt \/
   check_mandatory_toml_keys leaf_str d = inl ValueError) /\
  (check_mandatory_toml_keys leaf_str d = inr tt <->
   Forall (fun key => check_key_exists leaf_str d key = inr true) mandatory_keys /\
   Forall (fun keyset => Exists (fun key => check_key_exists leaf_str d key = inr true) keyset)
     one_or_more_keys /\
   Forall (fun keyset =>
             Forall (fun key => check_key_exists leaf_str d key = inr true) keyset \/
             Forall (fun key => check_key_exists leaf_str d key = inr false) keyset)
     all_or_none_keys).
Proof.
  intros H. rewrite List.Forall_forall in H.
  assert (Hb : forall key, In key (mandatory_keys ++ concat one_or_more_keys ++ concat all_or_none_keys) ->
                exists b, check_key_exists leaf_str d key = inr b).
  { intros key Hin. specialize (H key Hin).
    destruct (check_key_exists_result d key) as [Hr|Hr]; [exact Hr | congruence]. }
  set (G := check_key_exists leaf_str d) in *.
  assert (Hbs : forall keysets keyset, In keyset keysets ->
                (forall key, In key (concat keysets) -> exists b, G key = inr b) ->
                exists bs, py_map G keyset = inr bs /\ Forall2 (fun x b => G x = inr b) keyset bs).
  { intros keysets keyset Hin Hk. apply py_map_inr. apply List.Forall_forall.
    intros key Hkey. apply Hk. apply in_concat. exists keyset. split; assumption. }
  unfold check_mandatory_toml_keys. fold G.
  destruct (py_for_checks mandatory_keys
              (fun key => py_bind (G key) (fun b : bool => if b then inr tt else inl ValueError))
              (fun key => G key = inr true)) as [R1 E1].
  { apply List.Forall_forall. intros key Hin.
    destruct (Hb key ltac:(apply in_or_app; left; exact Hin)) as [b Hgb].
    rewrite Hgb. destruct b; cbn [py_bind].
    - split; [left; reflexivity | split; reflexivity].
    - split; [right; reflexivity | split; discriminate]. }
  destruct (py_for_checks one_or_more_keys
              (fun keyset => py_bind (py_map G keyset) (fun keys_exist =>
                 if existsb (fun b : bool => b) keys_exist then inr tt else inl ValueError))
              (fun keyset => Exists (fun key => G key = inr true) keyset)) as [R2 E2].
  { apply List.Forall_forall. intros keyset Hin.
    destruct (Hbs one_or_more_keys keyset Hin) as [bs [Hm Hf]].
    { intros key Hk. apply Hb. apply in_or_app. right. apply in_or_app. left. exact Hk. }
    rewrite Hm. cbn [py_bind].
    destruct (existsb_Forall2 G keyset bs Hf) as [X1 [X2 X3]].
    destruct (existsb (fun b : bool => b) bs).
    - split; [left; reflexivity|]. rewrite <- X1. split; reflexivity.
    - split; [right; reflexivity|]. rewrite <- X1. split; discriminate. }
  destruct (py_for_checks all_or_none_keys
              (fun keyset => py_bind (py_map G keyset) (fun keys_exist =>
                 if negb (forallb (fun b : bool => b) keys_exist) && existsb (fun b : bool => b) keys_exist
                 then inl ValueError else inr tt))
              (fun keyset => Forall (fun key => G key = inr true) keyset \/
                             Forall (fun key => G key = inr false) keyset)) as [R3 E3].
  { apply List.Forall_forall. intros keyset Hin.
    destruct (Hbs all_or_none_keys keyset Hin) as [bs [Hm Hf]].
    { intros key Hk. apply Hb. apply in_or_app. right. apply in_or_app. right. exact Hk. }
    rewrite Hm. cbn [py_bind].
    destruct (existsb_Forall2 G keyset bs Hf) as [X1 [X2 X3]].
    rewrite <- X2, <- X3.
    destruct (forallb (fun b : bool => b) bs), (existsb (fun b : bool => b) bs); cbn [negb andb].
    - split; [left; reflexivity | tauto].
    - split; [left; reflexivity | tauto].
    - split; [right; reflexivity|]. split; [discriminate | intros [Hx|Hx]; discriminate].
    - split; [left; reflexivity | tauto]. }
  destruct R1 as [R1|R1]; rewrite R1; cbn [py_bind].
  - destruct R2 as [R2|R2]; rewrite R2; cbn [py_bind].
    + split; [exact R3|]. rewrite E3.
      split; [intros Hc; split; [apply E1; exact R1 | split; [apply E2; exact R2 | exact Hc]] | tauto].
    + split; [right; reflexivity|]. split; [discriminate|].
      intros [_ [Hc _]]. apply E2 in Hc. congruence.
  - split; [right; reflexivity|]. split; [discriminate|].
    intros [Hc _]. apply E1 in Hc. congruence.
Qed.

End TomlProofs.

Lemma get_config_option_section_option_witness :
  get_config_option (fun s : string => s) witness_user_config "image.filename"
    witness_default_config None = inr (TLeaf "sky.png"%string) /\
  get_config_option (fun s : string => s) witness_user_config "image.fps"
    witness_default_config None = inr (TLeaf "10"%string) /\
  get_config_option (fun s : string => s) witness_user_config "image.dpi"
    witness_default_config None = inr (TLeaf "250"%string).
Proof.
  split; [|split].
  - refine (eq_trans (get_config_option_section_option string (fun s => s) witness_user_config
              witness_default_config "image" "filename" None ltac:(not_elem_of_string)
              ltac:(not_elem_of_string)) _).
    reflexivity.
  - refine (eq_trans (get_config_option_section_option string (fun s => s) witness_user_config
              witness_default_config "image" "fps" None ltac:(not_elem_of_string)
              ltac:(not_elem_of_string)) _).
    reflexivity.
  - refine (eq_trans (get_config_option_section_option string (fun s => s) witness_user_config
              witness_default_config "image" "dpi" None ltac:(not_elem_of_string)
              ltac:(not_elem_of_string)) _).
    reflexivity.
Defined.

Lemma check_mandatory_toml_keys_scalar_observation_witness :
  check_mandatory_toml_keys (fun s : string => s)
    [("observation", TLeaf "Paris"); ("image", TTable [("filename", TLeaf "sky.png")])]%string
  = inl TypeError.
Proof.
  apply (check_mandatory_toml_keys_scalar_observation string (fun s => s) _ "Paris"%string).
  reflexivity.
Defined.

Lemma check_mandatory_toml_keys_spec_witness :
  check_mandatory_toml_keys (fun s : string => s) witness_user_config = inl ValueError /\
  (check_mandatory_toml_keys (fun s : string => s) witness_user_config = inr tt \/
   check_mandatory_toml_keys (fun s : string => s) witness_user_config = inl ValueError).
Proof.
  split; [reflexivity|].
  apply (check_mandatory_toml_keys_spec string (fun s => s) witness_user_config).
  repeat constructor; vm_compute; discriminate.
Defined.
